(** * nypto: windowed feature extraction, label smoothing and scoring

    A shallow embedding of the numeric core of [profiling.py] and
    [classification.py], followed by the properties of the specification
    that were settled against it.

    Conventions of the embedding.
    - A Python call either returns a value or raises: [outcome].
    - Python [int]s that are sizes or counts are [nat]; quantities the code
      derives from them by subtraction ([n_obs_windows], [n_slide_windows],
      the trimmed [n_samples]) are [Z], since they do become negative.
    - A [float] is a rational ([Q]) or one of numpy's non-finite values;
      arithmetic on it is exact.
    - A 2-D numpy array is the list of its rows together with its column
      count; a 3-D array of observation windows is the list of its windows. *)

From Stdlib Require Import ZArith Zquot QArith List Lia Bool Arith Permutation Sorted.
Import ListNotations.

Set Implicit Arguments.

(** ** Exceptions and outcomes *)

(** The Python exceptions the modelled code can raise, and the three error
    kinds that only the specification names (no statement of the code
    constructs them). *)
Inductive exn : Type :=
| ZeroDivisionError
| ValueError
| IndexError
| KeyError
| ConfigurationError
| InsufficientDataError
| IndeterminateMetricError.

Inductive outcome (A : Type) : Type :=
| Returns (a : A)
| Raises (e : exn).

Arguments Raises {A} e.

Definition bind {A B : Type} (m : outcome A) (k : A -> outcome B) : outcome B :=
  match m with
  | Returns a => k a
  | Raises e => Raises e
  end.

Declare Scope outcome_scope.
Delimit Scope outcome_scope with outcome.
Notation "x <- m ;; k" := (bind m (fun x => k))
  (at level 61, m at next level, right associativity) : outcome_scope.
Notation "' p <- m ;; k" := (bind m (fun x => let 'p := x in k))
  (at level 61, p pattern, m at next level, right associativity) : outcome_scope.
Local Open Scope outcome_scope.

(** A list comprehension whose body may raise: elements are evaluated left
    to right and the first exception wins. *)
Fixpoint for_each {A B : Type} (f : A -> outcome B) (l : list A) : outcome (list B) :=
  match l with
  | [] => Returns []
  | a :: l' =>
      b <- f a ;;
      bs <- for_each f l' ;;
      Returns (b :: bs)
  end.

Definition raises {A : Type} (m : outcome A) (e : exn) : Prop := m = Raises e.

(** ** Python built-ins *)

Module Py.

(** Position of a slice bound in a sequence of length [len]: a negative
    bound counts from the end, and every bound is clamped to [0, len]. *)
Definition bound (len : nat) (i : Z) : nat :=
  if (i <? 0)%Z then Z.to_nat (Z.of_nat len + i) else Nat.min (Z.to_nat i) len.

(** [l[:j]], [l[i:]] and [l[i:j]]. *)
Definition slice_to {A : Type} (j : Z) (l : list A) : list A :=
  firstn (bound (length l) j) l.

Definition slice_from {A : Type} (i : Z) (l : list A) : list A :=
  skipn (bound (length l) i) l.

Definition slice {A : Type} (i j : Z) (l : list A) : list A :=
  firstn (bound (length l) j - bound (length l) i) (skipn (bound (length l) i) l).

(** [l[i:j]] for bounds that are naturals. *)
Definition slice_nat {A : Type} (i j : nat) (l : list A) : list A :=
  firstn (j - i) (skipn i l).

(** [l[i:j] = c] for bounds that are naturals: the slice is replaced by
    [c], whatever the length of [c]. *)
Definition assign_slice {A : Type} (i j : nat) (c l : list A) : list A :=
  firstn i l ++ c ++ skipn (Nat.max i j) l.

(** [range(n)]; empty when [n] is not positive. *)
Definition range (n : Z) : list nat := seq 0 (Z.to_nat n).

(** [int(x)] of a float: truncation toward zero. *)
Definition int (x : Q) : Z := Z.quot (Qnum x) (Zpos (Qden x)).

(** [int(a / b)] for integers [a], [b]: true division, then truncation. *)
Definition int_div (a b : Z) : outcome Z :=
  if (b =? 0)%Z then Raises ZeroDivisionError else Returns (Z.quot a b).

End Py.

(** ** numpy *)

Module Np.

(** A float64 value. *)
Inductive float : Type :=
| NaN
| PosInf
| NegInf
| Finite (q : Q).

(** [a / b] on integer scalars: numpy's true division does not raise on a
    zero divisor, it yields [nan] or an infinity (and a warning, which
    [profiling.py] switches off). *)
Definition true_divide (a b : Z) : float :=
  if (b =? 0)%Z then
    if (a =? 0)%Z then NaN else if (0 <? a)%Z then PosInf else NegInf
  else Finite (Qred (inject_Z a / inject_Z b)).

Definition sum (l : list nat) : nat := fold_right Nat.add 0%nat l.

(** [np.mean] and [np.var] of a list of counts. *)
Definition mean (l : list nat) : float :=
  true_divide (Z.of_nat (sum l)) (Z.of_nat (length l)).

Definition var (l : list nat) : float :=
  match mean l with
  | Finite m =>
      let sq := map (fun x => (inject_Z (Z.of_nat x) - m) * (inject_Z (Z.of_nat x) - m)) l in
      Finite (Qred (fold_right Qplus 0 sq / inject_Z (Z.of_nat (length l))))
  | other => other
  end.

(** A 2-D array: its rows and the second component of its [shape]. *)
Record array2 : Type := Array2 { rows : list (list Z); n_cols : nat }.

(** First dimension left by [reshape((a, b, c))] on an array of [size]
    elements. As in numpy's [_fix_unknown_dimension], a negative [a] is
    the dimension to infer; [b] and [c] are given. *)
Definition reshape_dim0 (size : nat) (a : Z) (b c : nat) : outcome nat :=
  if (a <? 0)%Z then
    if ((b * c =? 0) || negb (size mod (b * c) =? 0))%nat then Raises ValueError
    else Returns (size / (b * c))%nat
  else
    if (size =? Z.to_nat a * b * c)%nat then Returns (Z.to_nat a)
    else Raises ValueError.

(** The first [k] blocks of [b] consecutive rows. *)
Fixpoint chunks {A : Type} (k b : nat) (l : list A) : list (list A) :=
  match k with
  | O => []
  | S k' => firstn b l :: chunks k' b (skipn b l)
  end.

(** [data.reshape((a, b, c))] for [data] of shape [(len rows, n_cols)] and
    [c = n_cols]: blocks of [b] rows. With no column at all the array has
    no element, and the blocks are made of empty rows. *)
Definition reshape3 (data : array2) (a : Z) (b : nat) : outcome (list (list (list Z))) :=
  k <- reshape_dim0 (length (rows data) * n_cols data) a b (n_cols data) ;;
  Returns (chunks k b
             (if (n_cols data =? 0)%nat then repeat [] (k * b) else rows data)).

(** [np.concatenate(blocks, axis=0)]: refuses an empty sequence. *)
Definition concatenate {A : Type} (blocks : list (list A)) : outcome (list A) :=
  match blocks with
  | [] => Raises ValueError
  | _ => Returns (concat blocks)
  end.

(** [np.array(windows)] for a list of equally shaped 2-D arrays: a 3-D
    array, except that the empty list gives a 1-D array of shape [(0,)]. *)
Inductive stacked : Type :=
| Empty1D
| Array3 (windows : list (list (list Z))).

Definition array (windows : list (list (list Z))) : stacked :=
  match windows with
  | [] => Empty1D
  | _ => Array3 windows
  end.

(** [a[idx, :, :]]: three indices on a 1-D array are too many; on a 3-D
    array every entry of [idx] must be a valid window index. *)
Definition take (a : stacked) (idx : list nat) : outcome (list (list (list Z))) :=
  match a with
  | Empty1D => Raises IndexError
  | Array3 windows =>
      for_each (fun i => match nth_error windows i with
                         | Some w => Returns w
                         | None => Raises IndexError
                         end) idx
  end.

End Np.

(** ** profiling.py *)

Module profiling.

Section BreakTrainTest.

(** [np.random.permutation], as an oracle: the order it returns for a
    given length. *)
Variable permutation : nat -> list nat.

(** Lines 61-70: the observation windows, before the split. *)
Definition observation_windows (data : Np.array2) (obs_window slide_window : nat)
  : outcome (Z * Np.stacked) :=
  window_size <- Py.int_div (Z.of_nat obs_window) (Z.of_nat slide_window) ;;
  let n_samples := Z.of_nat (length (Np.rows data)) in
  n_obs_windows <- Py.int_div (n_samples - Z.of_nat obs_window) (Z.of_nat slide_window) ;;
  let n_samples := ((n_obs_windows - 1) * Z.of_nat slide_window + Z.of_nat obs_window)%Z in
  let n_slide_windows := (n_obs_windows + window_size - 1)%Z in
  let data := Np.Array2 (Py.slice_to n_samples (Np.rows data)) (Np.n_cols data) in
  data_slices <- Np.reshape3 data n_slide_windows slide_window ;;
  windows <- for_each (fun i => Np.concatenate
                                  (Py.slice (Z.of_nat i) (window_size + Z.of_nat i) data_slices))
                      (Py.range n_obs_windows) ;;
  Returns (n_obs_windows, Np.array windows).

Definition break_train_test (data : Np.array2) (obs_window slide_window : nat)
           (train_percentage : Q) (random_split : bool)
  : outcome (list (list (list Z)) * list (list (list Z))) :=
  '(n_obs_windows, data_obs) <- observation_windows data obs_window slide_window ;;
  order <- (if random_split
            then if (n_obs_windows <? 0)%Z then Raises ValueError
                 else Returns (permutation (Z.to_nat n_obs_windows))
            else Returns (Py.range n_obs_windows)) ;;
  let n_train_windows := Py.int (inject_Z n_obs_windows * train_percentage) in
  data_train <- Np.take data_obs (Py.slice_to n_train_windows order) ;;
  data_test <- Np.take data_obs (Py.slice_from n_train_windows order) ;;
  Returns (data_train, data_test).

End BreakTrainTest.

(** [s[-1] += 1]. *)
Fixpoint incr_last (s : list nat) : outcome (list nat) :=
  match s with
  | [] => Raises IndexError
  | [x] => Returns [S x]
  | x :: s' => s'' <- incr_last s' ;; Returns (x :: s'')
  end.

(** The loop of [extract_silence], lines 100-105: [prev] is [data[i-1]]
    and the list holds [data[i:]]. *)
Fixpoint silence_loop (threshold prev : Z) (rest : list Z) (s : list nat)
  : outcome (list nat) :=
  match rest with
  | [] => Returns s
  | x :: rest' =>
      if (x <=? threshold)%Z then
        if (prev >? threshold)%Z then silence_loop threshold x rest' (s ++ [1%nat])
        else if (prev <=? threshold)%Z then
               s' <- incr_last s ;; silence_loop threshold x rest' s'
             else silence_loop threshold x rest' s
      else silence_loop threshold x rest' s
  end.

Definition extract_silence (data : list Z) (threshold : Z) : outcome (list nat) :=
  match data with
  | [] => Raises IndexError
  | d0 :: rest =>
      s <- silence_loop threshold d0 rest (if (d0 <=? threshold)%Z then [1%nat] else []) ;;
      Returns (match s with [] => [0%nat] | _ => s end)
  end.

(** [data[i, :, c]]. *)
Definition column (c : nat) (window : list (list Z)) : list Z :=
  map (fun row => nth c row 0%Z) window.

(** Lines 118-120: the two features of one column of one window. *)
Definition silence_pair (col : list Z) : outcome (list Np.float) :=
  silence <- extract_silence col 250 ;;
  Returns [Np.mean silence; Np.var silence].

(** [extract_features_silence] on a 3-D array of windows with [n_cols]
    columns. *)
Definition extract_features_silence (n_cols : nat) (data : list (list (list Z)))
  : outcome (list (list Np.float)) :=
  for_each (fun window =>
              pairs <- for_each (fun c => silence_pair (column c window)) (seq 0 n_cols) ;;
              Returns (concat pairs))
           data.

End profiling.

(** ** classification.py *)

Module classification.

(** [Counter(window)]: a dict, i.e. keys in first-seen order, each with
    its number of occurrences. *)
Fixpoint count_up (x : Z) (d : list (Z * nat)) : list (Z * nat) :=
  match d with
  | [] => [(x, 1%nat)]
  | (k, v) :: d' => if (k =? x)%Z then (k, S v) :: d' else (k, v) :: count_up x d'
  end.

Definition Counter (window : list Z) : list (Z * nat) :=
  fold_left (fun d x => count_up x d) window [].

(** [d[k]] and [d.get(k)] on such a dict. *)
Fixpoint get (d : list (Z * nat)) (k : Z) : option nat :=
  match d with
  | [] => None
  | (k', v) :: d' => if (k' =? k)%Z then Some v else get d' k
  end.

Definition getitem (d : list (Z * nat)) (k : Z) : outcome nat :=
  match get d k with
  | Some v => Returns v
  | None => Raises KeyError
  end.

(** [max(d, key=d.get)]: the keys are visited in order and the running
    maximum is replaced only by a strictly greater count, so that among
    equally frequent labels the first seen wins. *)
Fixpoint max_from (best : Z * nat) (d : list (Z * nat)) : Z :=
  match d with
  | [] => fst best
  | (k, v) :: d' => if (snd best <? v)%nat then max_from (k, v) d' else max_from best d'
  end.

Definition max_key (d : list (Z * nat)) : outcome Z :=
  match d with
  | [] => Raises ValueError
  | kv :: d' => Returns (max_from kv d')
  end.

(** [a / b > threshold] for counts [a], [b] with [b] not zero. *)
Definition fraction_exceeds (a b : nat) (threshold : Q) : bool :=
  negb (Qle_bool (inject_Z (Z.of_nat a) / inject_Z (Z.of_nat b)) threshold).

Definition classify_aggregation_window (window : list Z) (threshold : Q)
  : outcome (list Z) :=
  let num_class := Counter window in
  max_repetition <- max_key num_class ;;
  n <- getitem num_class max_repetition ;;
  if fraction_exceeds n (length window) threshold
  then Returns (map (fun _ => max_repetition) (seq 0 (length window)))
  else Returns window.

(** The two statements the code repeats at lines 210-212 and 216-217:
    [c = classify_aggregation_window(traffic_idx[a:b], threshold)] and
    [traffic_idx[a:b] = c]. *)
Definition smooth_slice (threshold : Q) (a b : nat) (traffic_idx : list Z)
  : outcome (list Z) :=
  c <- classify_aggregation_window (Py.slice_nat a b traffic_idx) threshold ;;
  Returns (Py.assign_slice a b c traffic_idx).

(** The [while] loop of lines 209-213. Every iteration that does not raise
    advances [i] by a positive [window_size] (an empty window raises), so
    the loop body runs at most [ts] times: [bound] is that budget, and
    when it is used up the guard [i + window_size < ts] is false
    (lemma [smooth_chunks_exit]). *)
Fixpoint smooth_chunks (bound : nat) (window_size : nat) (threshold : Q)
         (ts i : nat) (traffic_idx : list Z) : outcome (nat * list Z) :=
  match bound with
  | O => Returns (i, traffic_idx)
  | S bound' =>
      if (i + window_size <? ts)%nat then
        traffic_idx <- smooth_slice threshold i (i + window_size) traffic_idx ;;
        smooth_chunks bound' window_size threshold ts (i + window_size) traffic_idx
      else Returns (i, traffic_idx)
  end.

(** Lines 208-217: the body of [for ts in traffic_samples]. The index [i]
    restarts from 0 for every [ts]. *)
Definition smooth_segment (window_size : nat) (threshold : Q) (ts : nat)
           (traffic_idx : list Z) : outcome (list Z) :=
  '(i, traffic_idx) <- smooth_chunks ts window_size threshold ts 0 traffic_idx ;;
  if (0 <? ts - i)%nat then smooth_slice threshold i ts traffic_idx
  else Returns traffic_idx.

Fixpoint smooth_segments (window_size : nat) (threshold : Q)
         (traffic_samples : list nat) (traffic_idx : list Z) : outcome (list Z) :=
  match traffic_samples with
  | [] => Returns traffic_idx
  | ts :: rest =>
      traffic_idx <- smooth_segment window_size threshold ts traffic_idx ;;
      smooth_segments window_size threshold rest traffic_idx
  end.

(** A prediction dict [{0: r0, 1: r1, ...}], in insertion order. *)
Definition labels := list (nat * Z).

Definition values (d : labels) : list Z := map snd d.

Definition improve_classification_history (traffic_samples : list nat)
           (traffic_idx : labels) (window_size : nat) (threshold : Q)
  : outcome (list Z) :=
  smooth_segments window_size threshold traffic_samples (values traffic_idx).

(** The loop every [classification_*] function ends with:
    [for i in range(n): traffic_idx[i] = result[i]]. *)
Definition as_dict (n : nat) (result : list Z) : outcome labels :=
  for_each (fun i => match nth_error result i with
                     | Some r => Returns (i, r)
                     | None => Raises IndexError
                     end) (seq 0 n).

Fixpoint lookup (d : labels) (i : nat) : outcome Z :=
  match d with
  | [] => Raises KeyError
  | (k, v) :: d' => if (k =? i)%nat then Returns v else lookup d' i
  end.




Section Ensemble.

(** The trained models are opaque: only their [predict] is used. A
    feature is a float whose value plays no role here. *)
Variable feature : Type.
Variable random_forest_predict : list (list feature) -> list Z.
Variable silence_predict : list (list feature) -> list Z.

Definition classification_random_forests (norm_test_features : list (list feature))
  : outcome labels :=
  as_dict (length norm_test_features) (random_forest_predict norm_test_features).

Definition classification_silence (norm_test_features : list (list feature))
  : outcome labels :=
  as_dict (length norm_test_features) (silence_predict norm_test_features).

(** [i in possible_mining]. *)
Definition contains (l : list nat) (i : nat) : bool := existsb (Nat.eqb i) l.

(** [[i for i, x in enumerate(y) if x >= 13]]. *)
Definition possible_mining_of (y : list Z) : list nat :=
  map fst (filter (fun ix => (13 <=? snd ix)%Z) (combine (seq 0 (length y)) y)).

(** [main], lines 331-348: the branch [args.method == 0]. *)
Definition ensemble (traffic_samples_number : list nat)
           (norm_pca_test_features : list (list feature)) : outcome (list Z) :=
  y_test_model1 <- classification_random_forests norm_pca_test_features ;;
  y_test_model1 <- improve_classification_history traffic_samples_number y_test_model1
                     40 (60 # 100) ;;
  let possible_mining := possible_mining_of y_test_model1 in
  y_test_model2 <- classification_silence
                     (map (Py.slice 24 32) norm_pca_test_features) ;;
  for_each (fun i => if contains possible_mining i
                     then lookup y_test_model2 i
                     else match nth_error y_test_model1 i with
                          | Some x => Returns x
                          | None => Raises IndexError
                          end)
           (seq 0 (length y_test_model1)).

End Ensemble.

End classification.

Import profiling classification.

Local Open Scope nat_scope.
Unset Implicit Arguments.

(** ** The binary quadrants, in the words of the specification *)







(** ** Smoothing by segment, in the words of the specification *)

(** The label sequence is the concatenation of one segment per traffic
    class, of the given sizes; each segment is smoothed on its own, in
    chunks of [window_size] counted from the start of the segment, so that
    no chunk spans a class boundary. *)
Fixpoint smooth_per_segment (window_size : nat) (threshold : Q) (sizes : list nat)
         (traffic_idx : list Z) : outcome (list Z) :=
  match sizes with
  | [] => Returns traffic_idx
  | n :: sizes' =>
      segment <- smooth_segment window_size threshold n (firstn n traffic_idx) ;;
      others <- smooth_per_segment window_size threshold sizes' (skipn n traffic_idx) ;;
      Returns (segment ++ others)
  end.

(** ** The slices a smoothing pass votes on *)

(** The slices [(a, b)] visited by the [while] loop started at [i], and the
    index at which the loop stops. *)
Fixpoint loop_slices (bound window_size ts i : nat) : list (nat * nat) * nat :=
  match bound with
  | O => ([], i)
  | S bound' =>
      if (i + window_size <? ts)%nat then
        let '(slices, i') := loop_slices bound' window_size ts (i + window_size) in
        ((i, i + window_size) :: slices, i')
      else ([], i)
  end.

(** The slices of one [ts], and of a whole call. *)
Definition segment_slices (window_size ts : nat) : list (nat * nat) :=
  let '(slices, i) := loop_slices ts window_size ts 0 in
  slices ++ (if (0 <? ts - i)%nat then [(i, ts)] else []).

Definition call_slices (window_size : nat) (traffic_samples : list nat) : list (nat * nat) :=
  flat_map (segment_slices window_size) traffic_samples.

(** Voting on each slice of a list in turn. *)
Fixpoint smooth_slices (threshold : Q) (slices : list (nat * nat)) (traffic_idx : list Z)
  : outcome (list Z) :=
  match slices with
  | [] => Returns traffic_idx
  | (a, b) :: slices' =>
      traffic_idx <- smooth_slice threshold a b traffic_idx ;;
      smooth_slices threshold slices' traffic_idx
  end.

(** With a positive window size the slices of one [ts] are the chunks
    [j * window_size, min((j + 1) * window_size, ts)), in increasing
    order. *)
Definition chunk_of (window_size ts : nat) (ab : nat * nat) : Prop :=
  exists j, fst ab = j * window_size
            /\ snd ab = Nat.min (fst ab + window_size) ts
            /\ fst ab < snd ab.

(** A slice on which the vote changes nothing. *)
Definition settled (threshold : Q) (traffic_idx : list Z) (ab : nat * nat) : Prop :=
  classify_aggregation_window (Py.slice_nat (fst ab) (snd ab) traffic_idx) threshold
  = Returns (Py.slice_nat (fst ab) (snd ab) traffic_idx).

(** A later slice [q] leaves an earlier slice [p] settled when it lies
    outside of it, or starts where it starts and reaches at least as far. *)
Definition compatible (p q : nat * nat) : Prop :=
  (snd p <= fst q \/ snd q <= fst p \/ (fst q = fst p /\ snd p <= snd q))%nat.

(** ** More of [profiling.py] and [classification.py] *)

(** [get_obs_classes], line 42: for every class [t] (iterating a dict gives
    its keys) a block [np.ones((n_obs_windows, n_elems)) * t], the blocks
    stacked; [np.vstack] is a concatenation along the rows and refuses an
    empty list. *)
Definition get_obs_classes (n_obs_windows n_elems : nat) (traffic_classes : list Z)
  : outcome (list (list Z)) :=
  Np.concatenate (map (fun t => repeat (repeat t n_elems) n_obs_windows) traffic_classes).

(** [a / b] on Python integers: a float, or [ZeroDivisionError]. *)
Definition true_div (a b : Z) : outcome Q :=
  if (b =? 0)%Z then Raises ZeroDivisionError
  else Returns (inject_Z a / inject_Z b)%Q.

Section LiveData.

(** The model loaded by [classify_live_data] is opaque: its [predict]. *)
Variable feature : Type.
Variable model_predict : list (list feature) -> list Z.

(** [classify_live_data], lines 234-243: the dict [{'nmin': ..., 'min': ...}]
    as a pair. *)
Definition classify_live_data (norm_pca_features : list (list feature))
  : outcome (Q * Q) :=
  let result := model_predict norm_pca_features in
  let not_mining := length (filter (fun r => (r <? 7)%Z) result) in
  nmin <- true_div (Z.of_nat not_mining) (Z.of_nat (length result)) ;;
  min <- true_div (Z.of_nat (length result) - Z.of_nat not_mining)
                  (Z.of_nat (length result)) ;;
  Returns (nmin, min).

(** [main], lines 350-362: the branches [args.method == 1] and
    [args.method == 2], one model followed by the smoothing. The model
    answers through the same loop as every [classification_*] function. *)
Definition single_model (traffic_samples_number : list nat)
           (norm_pca_test_features : list (list feature)) : outcome (list Z) :=
  y_test <- as_dict (length norm_pca_test_features)
                    (model_predict norm_pca_test_features) ;;
  improve_classification_history traffic_samples_number y_test 40 (60 # 100).

End LiveData.

(** ** Reference notions for the further properties *)

(** Number of samples at or below the threshold. *)
Definition count_silent (threshold : Z) (data : list Z) : nat :=
  length (filter (fun x => (x <=? threshold)%Z) data).

(** A signal laid out as blocks: each block is a stretch of samples above
    the threshold followed by a stretch of samples at or below it. *)
Definition lay_out (blocks : list (list Z * list Z)) : list Z :=
  concat (map (fun b => fst b ++ snd b) blocks).

(** The vote on one chunk, as a function: the chunk filled with its
    majority label when that label is frequent enough, the chunk itself
    otherwise (and for the empty chunk, on which the code raises). *)
Definition vote (threshold : Q) (chunk : list Z) : list Z :=
  match classify_aggregation_window chunk threshold with
  | Returns c => c
  | Raises _ => chunk
  end.

(** The votes on the consecutive chunks of [window_size] labels of a
    sequence, the last chunk being shorter when the length is not a
    multiple; [fuel] bounds the number of chunks. *)
Fixpoint vote_chunks (fuel window_size : nat) (threshold : Q) (l : list Z) : list Z :=
  match fuel with
  | O => l
  | S fuel' =>
      match l with
      | [] => []
      | _ => vote threshold (firstn window_size l)
               ++ vote_chunks fuel' window_size threshold (skipn window_size l)
      end
  end.

Definition vote_all (window_size : nat) (threshold : Q) (l : list Z) : list Z :=
  vote_chunks (length l) window_size threshold l.

(** One pass of the smoothing as a function: the first [ts] labels voted on
    chunk by chunk, the others kept. *)
Definition smooth_prefix (window_size : nat) (threshold : Q) (l : list Z) (ts : nat)
  : list Z :=
  vote_all window_size threshold (firstn ts l) ++ skipn ts l.

(** The first multiple of [window_size] that is not below [n]. *)
Definition round_up (window_size n : nat) : nat :=
  window_size * ((n + window_size - 1) / window_size).

(** ** Inputs used in the examples *)

(** [n] samples of four counters each. *)
Definition samples4 (n : nat) : Np.array2 :=
  Np.Array2 (map (fun i => [Z.of_nat i; 1000; 3; 7]%Z) (seq 0 n)) 4.

(** Ten predicted labels, as a prediction dict. *)
Definition example_labels : labels :=
  combine (seq 0 10) [0; 1; 1; 1; 1; 2; 2; 3; 2; 4]%Z.

(** Two stand-in models over integer features: the bulk model answers with
    the first feature of a row, the silence model with the number of
    features it is shown. *)
Definition example_bulk (X : list (list Z)) : list Z :=
  map (fun row => nth 0 row 0%Z) X.

Definition example_silence (X : list (list Z)) : list Z :=
  map (fun row => Z.of_nat (length row)) X.

Definition example_features : list (list Z) :=
  [14%Z :: repeat 0%Z 39; 2%Z :: repeat 0%Z 39].

(** A shuffle: the windows in reverse order. *)
Definition reversed (n : nat) : list nat := rev (seq 0 n).

(** * Properties *)


(** ** Outcomes and comprehensions *)

Lemma for_each_returns {A B : Type} (f : A -> outcome B) (g : A -> B) (l : list A) :
  (forall a, In a l -> f a = Returns (g a)) ->
  for_each f l = Returns (map g l).
Proof.
  induction l as [|a l IH]; intros Hf; simpl.
  - reflexivity.
  - rewrite (Hf a) by (left; reflexivity). simpl.
    rewrite IH by (intros b Hb; apply Hf; right; exact Hb).
    reflexivity.
Qed.

Lemma for_each_length {A B : Type} (f : A -> outcome B) (l : list A) (r : list B) :
  for_each f l = Returns r -> length r = length l.
Proof.
  revert r. induction l as [|a l IH]; simpl; intros r H.
  - inversion H. reflexivity.
  - destruct (f a) as [b|e]; simpl in H; [|discriminate].
    destruct (for_each f l) as [bs|e]; simpl in H; [|discriminate].
    inversion H. simpl. f_equal. apply IH. reflexivity.
Qed.

Lemma for_each_nth {A B : Type} (f : A -> outcome B) (l : list A) (r : list B) :
  for_each f l = Returns r ->
  forall i a, nth_error l i = Some a ->
  exists b, nth_error r i = Some b /\ f a = Returns b.
Proof.
  revert r. induction l as [|a0 l IH]; simpl; intros r H i a Hi.
  - destruct i; discriminate.
  - destruct (f a0) as [b0|e] eqn:E0; simpl in H; [|discriminate].
    destruct (for_each f l) as [bs|e]; simpl in H; [|discriminate].
    inversion H; subst r.
    destruct i as [|i]; simpl in *.
    + inversion Hi; subst a0. exists b0. split; [reflexivity|exact E0].
    + apply (IH bs eq_refl i a Hi).
Qed.

Lemma nth_map_seq {B : Type} (g : nat -> B) (n i : nat) (d : B) :
  i < n -> nth i (map g (seq 0 n)) d = g i.
Proof.
  intros Hi. rewrite nth_indep with (d' := g 0) by (rewrite length_map, length_seq; exact Hi).
  rewrite (map_nth g (seq 0 n) 0 i), seq_nth by exact Hi. reflexivity.
Qed.

(** ** Slices and blocks *)

Lemma bound_nonneg (len i : nat) : Py.bound len (Z.of_nat i) = Nat.min i len.
Proof.
  unfold Py.bound.
  destruct (Z.ltb_spec (Z.of_nat i) 0); [lia|].
  rewrite Nat2Z.id. reflexivity.
Qed.

Lemma slice_nonneg {A : Type} (i j : nat) (l : list A) :
  Py.slice (Z.of_nat i) (Z.of_nat j) l = Py.slice_nat i j l.
Proof.
  unfold Py.slice, Py.slice_nat. rewrite !bound_nonneg.
  destruct (Nat.le_gt_cases i (length l)) as [Hi|Hi].
  - rewrite (Nat.min_l i) by exact Hi.
    destruct (Nat.le_gt_cases j (length l)) as [Hj|Hj].
    + rewrite (Nat.min_l j) by exact Hj. reflexivity.
    + rewrite (Nat.min_r j) by lia.
      rewrite !firstn_all2; try reflexivity; rewrite length_skipn; lia.
  - rewrite (Nat.min_r i) by lia.
    rewrite !skipn_all2 by lia. rewrite !firstn_nil. reflexivity.
Qed.

Lemma slice_to_from {A : Type} (m : Z) (l : list A) :
  Py.slice_to m l ++ Py.slice_from m l = l.
Proof. unfold Py.slice_to, Py.slice_from. apply firstn_skipn. Qed.

Lemma chunks_length {A : Type} (k b : nat) (l : list A) :
  length (Np.chunks k b l) = k.
Proof.
  revert l. induction k as [|k IH]; intros l; simpl; [reflexivity|].
  rewrite IH. reflexivity.
Qed.

Lemma chunks_skipn {A : Type} (i k b : nat) (l : list A) :
  skipn i (Np.chunks (i + k) b l) = Np.chunks k b (skipn (i * b) l).
Proof.
  revert l. induction i as [|i IH]; intros l; simpl.
  - reflexivity.
  - rewrite IH. rewrite skipn_skipn. f_equal. f_equal. lia.
Qed.

Lemma chunks_firstn {A : Type} (w k b : nat) (l : list A) :
  firstn w (Np.chunks (w + k) b l) = Np.chunks w b l.
Proof.
  revert l. induction w as [|w IH]; intros l; simpl.
  - reflexivity.
  - rewrite IH. reflexivity.
Qed.

Lemma chunks_concat {A : Type} (k b : nat) (l : list A) :
  concat (Np.chunks k b l) = firstn (k * b) l.
Proof.
  revert l. induction k as [|k IH]; intros l; simpl.
  - reflexivity.
  - rewrite IH, firstn_skipn_comm.
    rewrite <- (firstn_skipn b (firstn (b + k * b) l)) at 2.
    rewrite firstn_firstn, Nat.min_l by lia. reflexivity.
Qed.

(** The blocks [i, i + w) of a blocked view, concatenated, are the
    [w * b] rows that start at row [i * b]. *)
Lemma window_of_chunks {A : Type} (i w k b : nat) (l : list A) :
  i + w <= k ->
  concat (Py.slice (Z.of_nat i) (Z.of_nat w + Z.of_nat i) (Np.chunks k b l))
  = firstn (w * b) (skipn (i * b) l).
Proof.
  intros Hk.
  replace (Z.of_nat w + Z.of_nat i)%Z with (Z.of_nat (i + w)) by lia.
  rewrite slice_nonneg. unfold Py.slice_nat.
  replace (i + w - i) with w by lia.
  replace k with (i + (w + (k - i - w))) by lia.
  rewrite chunks_skipn, chunks_firstn, chunks_concat. reflexivity.
Qed.

Lemma window_slice_length {A : Type} (i w k b : nat) (l : list A) :
  i + w <= k ->
  length (Py.slice (Z.of_nat i) (Z.of_nat w + Z.of_nat i) (Np.chunks k b l)) = w.
Proof.
  intros Hk.
  replace (Z.of_nat w + Z.of_nat i)%Z with (Z.of_nat (i + w)) by lia.
  rewrite slice_nonneg. unfold Py.slice_nat.
  rewrite length_firstn, length_skipn, chunks_length. lia.
Qed.

Lemma firstn_skipn_firstn {A : Type} (a b n : nat) (l : list A) :
  b + a <= n ->
  firstn a (skipn b (firstn n l)) = firstn a (skipn b l).
Proof.
  intros H. rewrite skipn_firstn_comm, firstn_firstn.
  rewrite Nat.min_l by lia. reflexivity.
Qed.

(** ** Window segmentation: [break_train_test] *)

(** The observation window the specification describes: the [obs_window]
    consecutive samples that start at sample [i * slide_window]. *)
Definition window_at (samples : list (list Z)) (obs_window slide_window i : nat)
  : list (list Z) :=
  firstn obs_window (skipn (i * slide_window) samples).

Lemma int_div_nat (a b : nat) :
  b <> 0 -> Py.int_div (Z.of_nat a) (Z.of_nat b) = Returns (Z.of_nat (a / b)).
Proof.
  intros Hb. unfold Py.int_div.
  destruct (Z.eqb_spec (Z.of_nat b) 0) as [E|_]; [lia|].
  rewrite Z.quot_div_nonneg by lia.
  rewrite Nat2Z.inj_div. reflexivity.
Qed.

Lemma concatenate_nonempty {A : Type} (blocks : list (list A)) :
  0 < length blocks -> Np.concatenate blocks = Returns (concat blocks).
Proof. destruct blocks; simpl; [lia|reflexivity]. Qed.

Lemma array_nonempty (windows : list (list (list Z))) :
  0 < length windows -> Np.array windows = Np.Array3 windows.
Proof. destruct windows; simpl; [lia|reflexivity]. Qed.

Lemma take_map (g : nat -> list (list Z)) (k : nat) (idx : list nat) :
  Forall (fun i => i < k) idx ->
  for_each (fun i => match nth_error (map g (seq 0 k)) i with
                     | Some w => Returns w
                     | None => Raises IndexError
                     end) idx
  = Returns (map g idx).
Proof.
  intros Hidx. apply for_each_returns.
  intros i Hi. rewrite Forall_forall in Hidx. specialize (Hidx i Hi).
  rewrite nth_error_map, nth_error_nth' with (d := 0) by (rewrite length_seq; exact Hidx).
  rewrite seq_nth by exact Hidx. reflexivity.
Qed.

(** With at least one window to form, lines 61-70 build exactly the
    windows of the specification, in order. *)
Lemma observation_windows_spec (data : Np.array2) (obs_window slide_window : nat) :
  0 < slide_window -> 0 < obs_window ->
  obs_window mod slide_window = 0 ->
  0 < Np.n_cols data ->
  obs_window + slide_window <= length (Np.rows data) ->
  let k := (length (Np.rows data) - obs_window) / slide_window in
  observation_windows data obs_window slide_window
  = Returns (Z.of_nat k,
             Np.Array3 (map (window_at (Np.rows data) obs_window slide_window) (seq 0 k))).
Proof.
  intros Hs Ho Hdiv Hc Hn k. destruct data as [rows c]. simpl in *.
  unfold observation_windows. simpl Np.rows. simpl Np.n_cols.
  set (n := length rows) in *.
  set (ws := obs_window / slide_window).
  assert (Hobs : obs_window = slide_window * ws)
    by (apply Nat.Div0.div_exact; exact Hdiv).
  assert (Hk1 : 1 <= k)
    by (apply Nat.div_le_lower_bound; lia).
  assert (Hk2 : slide_window * k <= n - obs_window)
    by (apply Nat.Div0.mul_div_le).
  assert (Hws : 1 <= ws) by (destruct ws; nia).
  rewrite int_div_nat by lia. simpl bind.
  replace (Z.of_nat n - Z.of_nat obs_window)%Z with (Z.of_nat (n - obs_window)) by lia.
  rewrite int_div_nat by lia. simpl bind. fold k. fold ws.
  set (N := (k - 1) * slide_window + obs_window).
  replace ((Z.of_nat k - 1) * Z.of_nat slide_window + Z.of_nat obs_window)%Z
    with (Z.of_nat N) by (unfold N; nia).
  replace (Z.of_nat k + Z.of_nat ws - 1)%Z with (Z.of_nat (k + ws - 1)) by lia.
  assert (HN : N <= n) by (unfold N; nia).
  unfold Py.slice_to. rewrite bound_nonneg, Nat.min_l by exact HN.
  unfold Np.reshape3. simpl Np.rows. simpl Np.n_cols.
  rewrite length_firstn. fold n. rewrite Nat.min_l by exact HN.
  unfold Np.reshape_dim0.
  destruct (Z.ltb_spec (Z.of_nat (k + ws - 1)) 0) as [?|_]; [lia|].
  rewrite Nat2Z.id.
  replace (N * c =? (k + ws - 1) * slide_window * c) with true
    by (symmetry; apply Nat.eqb_eq; unfold N; nia).
  simpl bind.
  destruct (Nat.eqb_spec c 0) as [?|_]; [lia|].
  unfold Py.range. rewrite Nat2Z.id.
  rewrite for_each_returns with (g := window_at rows obs_window slide_window).
  - simpl bind. rewrite array_nonempty by (rewrite length_map, length_seq; lia).
    reflexivity.
  - intros i Hi. apply in_seq in Hi.
    rewrite concatenate_nonempty by (rewrite window_slice_length; lia).
    rewrite window_of_chunks by lia.
    unfold window_at. f_equal.
    replace (ws * slide_window) with obs_window by lia.
    apply firstn_skipn_firstn. unfold N. nia.
Qed.

Lemma take_empty (idx : list nat) : Np.take Np.Empty1D idx = Raises IndexError.
Proof. reflexivity. Qed.

(** Without a window to stack, [np.array] makes a 1-D array, and the
    3-index selection of line 76 is refused: the call cannot return. *)
Lemma break_train_test_no_window (permutation : nat -> list nat) (data : Np.array2)
      (obs_window slide_window : nat) (train_percentage : Q) (random_split : bool) :
  (Z.quot (Z.of_nat (length (Np.rows data)) - Z.of_nat obs_window) (Z.of_nat slide_window)
   <= 0)%Z ->
  exists e, break_train_test permutation data obs_window slide_window
                             train_percentage random_split = Raises e
            /\ (e = ZeroDivisionError /\ slide_window = 0
                \/ e = ValueError \/ e = IndexError).
Proof.
  intros Hk. unfold break_train_test, observation_windows, Py.int_div.
  destruct (Z.eqb_spec (Z.of_nat slide_window) 0) as [E|E]; simpl bind.
  - exists ZeroDivisionError. split; [reflexivity|]. left. split; [reflexivity|lia].
  - set (k := Z.quot _ _) in *.
    destruct (Np.reshape3 _ _ _) as [slices|e] eqn:R; simpl bind.
    + unfold Py.range. replace (Z.to_nat k) with 0 by lia. simpl.
      destruct random_split.
      * destruct (Z.ltb_spec k 0); simpl; eauto 6.
      * simpl. eauto 6.
    + unfold Np.reshape3 in R.
      destruct (Np.reshape_dim0 _ _ _ _) as [d|e'] eqn:D; simpl in R; [discriminate|].
      inversion R; subst e'. exists e. split; [reflexivity|].
      unfold Np.reshape_dim0 in D.
      repeat match type of D with
             | (if ?b then _ else _) = _ => destruct b
             end; inversion D; auto.
Qed.

Section Segmentation.

Variable permutation : nat -> list nat.
Hypothesis permutation_spec : forall n, Permutation (permutation n) (seq 0 n).

Lemma order_in_range (k : nat) (random_split : bool) :
  Forall (fun i => i < k) (if random_split then permutation k else seq 0 k).
Proof.
  apply Forall_forall. intros i Hi.
  assert (In i (seq 0 k)) as Hin.
  { destruct random_split; [|exact Hi].
    apply (Permutation_in i (permutation_spec k)). exact Hi. }
  apply in_seq in Hin. lia.
Qed.

(** Where C1 holds. For a sample array of [n] rows, [obs_window] a positive
    multiple of [slide_window] and [n >= obs_window + slide_window] (samples
    for one window at least), [break_train_test] returns
    [k = floor((n - obs_window) / slide_window)] windows in all; the windows
    of the two splits, read in the order of the split, are the windows [i]
    of that order, and window [i] is the [obs_window] consecutive samples
    starting at sample [i * slide_window]. The order is a permutation of
    [0, k). *)
Lemma break_train_test_windows (data : Np.array2) (obs_window slide_window : nat)
        (train_percentage : Q) (random_split : bool) :
  0 < slide_window -> 0 < obs_window ->
  obs_window mod slide_window = 0 ->
  0 < Np.n_cols data ->
  obs_window + slide_window <= length (Np.rows data) ->
  let k := (length (Np.rows data) - obs_window) / slide_window in
  let order := if random_split then permutation k else seq 0 k in
  exists data_train data_test,
    break_train_test permutation data obs_window slide_window train_percentage random_split
    = Returns (data_train, data_test)
    /\ length data_train + length data_test = k
    /\ data_train ++ data_test
       = map (window_at (Np.rows data) obs_window slide_window) order
    /\ Permutation order (seq 0 k).
Proof.
  intros Hs Ho Hdiv Hc Hn k order.
  unfold break_train_test.
  rewrite observation_windows_spec by assumption. fold k. simpl bind.
  destruct (Z.ltb_spec (Z.of_nat k) 0) as [?|_]; [lia|].
  unfold Py.range. rewrite Nat2Z.id.
  set (m := Py.int _).
  assert (Hord : (if random_split
                  then Returns (permutation k)
                  else Returns (seq 0 k)) = Returns order)
    by (unfold order; destruct random_split; reflexivity).
  rewrite Hord. simpl bind.
  assert (Hrange : Forall (fun i => i < k) order) by apply order_in_range.
  assert (Hsplit := slice_to_from m order).
  rewrite <- Hsplit in Hrange. apply Forall_app in Hrange as [Htr Hte].
  rewrite (take_map _ _ _ Htr). simpl bind.
  rewrite (take_map _ _ _ Hte). simpl bind.
  eexists. eexists. split; [reflexivity|].
  split; [|split].
  - rewrite <- length_app, <- map_app, Hsplit, length_map.
    unfold order. destruct random_split.
    + rewrite (Permutation_length (permutation_spec k)). apply length_seq.
    + apply length_seq.
  - rewrite <- map_app, Hsplit. reflexivity.
  - unfold order. destruct random_split; [apply permutation_spec|reflexivity].
Qed.

(** C7 (amended). When [obs_window] is not a multiple of a positive
    [slide_window] and the samples have at least one column,
    [break_train_test] does not return: it fails with one of numpy's own
    errors, which is the [ValueError] of the reshape as soon as there are
    samples for one window ([n >= obs_window + slide_window]). *)
Theorem break_train_test_indivisible (data : Np.array2) (obs_window slide_window : nat)
        (train_percentage : Q) (random_split : bool) :
  0 < slide_window ->
  obs_window mod slide_window <> 0 ->
  0 < Np.n_cols data ->
  exists e,
    break_train_test permutation data obs_window slide_window train_percentage random_split
    = Raises e
    /\ (e = ValueError \/ e = IndexError)
    /\ (obs_window + slide_window <= length (Np.rows data) -> e = ValueError).
Proof.
  intros Hs Hdiv Hc.
  set (n := length (Np.rows data)).
  destruct (Nat.le_gt_cases (obs_window + slide_window) n) as [Hn|Hn].
  - exists ValueError. split; [|auto].
    destruct data as [rows c]. simpl in *.
    unfold break_train_test, observation_windows. simpl Np.rows. simpl Np.n_cols.
    fold n.
    set (ws := obs_window / slide_window).
    set (k := (n - obs_window) / slide_window).
    assert (Hobs : obs_window = slide_window * ws + obs_window mod slide_window)
      by (apply Nat.div_mod_eq).
    assert (Hk1 : 1 <= k) by (apply Nat.div_le_lower_bound; lia).
    assert (Hk2 : slide_window * k <= n - obs_window) by (apply Nat.Div0.mul_div_le).
    rewrite int_div_nat by lia. simpl bind.
    replace (Z.of_nat n - Z.of_nat obs_window)%Z with (Z.of_nat (n - obs_window)) by lia.
    rewrite int_div_nat by lia. simpl bind. fold k. fold ws.
    set (N := (k - 1) * slide_window + obs_window).
    replace ((Z.of_nat k - 1) * Z.of_nat slide_window + Z.of_nat obs_window)%Z
      with (Z.of_nat N) by (unfold N; nia).
    replace (Z.of_nat k + Z.of_nat ws - 1)%Z with (Z.of_nat (k + ws - 1)) by lia.
    assert (HN : N <= n) by (unfold N; nia).
    unfold Py.slice_to. rewrite bound_nonneg, Nat.min_l by exact HN.
    unfold Np.reshape3. simpl Np.rows. simpl Np.n_cols.
    rewrite length_firstn. fold n. rewrite Nat.min_l by exact HN.
    unfold Np.reshape_dim0.
    destruct (Z.ltb_spec (Z.of_nat (k + ws - 1)) 0) as [?|_]; [lia|].
    rewrite Nat2Z.id.
    destruct (Nat.eqb_spec (N * c) ((k + ws - 1) * slide_window * c)) as [E|_].
    + exfalso. unfold N in E.
      assert ((k - 1) * slide_window + obs_window = (k + ws - 1) * slide_window) by nia.
      nia.
    + reflexivity.
  - destruct (break_train_test_no_window permutation data obs_window slide_window
                train_percentage random_split) as [e [He Hk]].
    + fold n.
      destruct (Z.le_gt_cases (Z.of_nat n - Z.of_nat obs_window) 0) as [H0|H0].
      * apply Z.quot_le_upper_bound; lia.
      * rewrite Z.quot_small by lia. lia.
    + exists e. split; [exact He|]. split; [|lia].
      destruct Hk as [[_ Hk]|Hk]; [lia|exact Hk].
Qed.

End Segmentation.

(** With no more samples than one observation window holds,
    [break_train_test] never returns: it raises. *)
Lemma break_train_test_short_input (permutation : nat -> list nat) (data : Np.array2)
        (obs_window slide_window : nat) (train_percentage : Q) (random_split : bool) :
  length (Np.rows data) <= obs_window ->
  exists e,
    break_train_test permutation data obs_window slide_window train_percentage random_split
    = Raises e.
Proof.
  intros Hn.
  destruct (break_train_test_no_window permutation data obs_window slide_window
              train_percentage random_split) as [e [He _]].
  - destruct (Z.eq_dec (Z.of_nat slide_window) 0) as [E|E].
    + rewrite E. rewrite Zquot.Zquot_0_r. lia.
    + apply Z.quot_le_upper_bound; lia.
  - exists e. exact He.
Qed.

Lemma break_train_test_short_input_witness :
  length (Np.rows (samples4 240)) <= 240
  /\ (exists e, break_train_test reversed (samples4 240) 240 40 (1 # 2) true = Raises e)
  /\ break_train_test reversed (samples4 240) 240 40 (1 # 2) true = Raises IndexError.
Proof.
  assert (H : length (Np.rows (samples4 240)) <= 240) by (vm_compute; lia).
  split; [exact H|]. split.
  - exact (break_train_test_short_input reversed (samples4 240) 240 40 (1 # 2) true H).
  - vm_compute. reflexivity.
Defined.


Lemma reversed_spec (n : nat) : Permutation (reversed n) (seq 0 n).
Proof. unfold reversed. symmetry. apply Permutation_rev. Qed.

Lemma break_train_test_windows_witness :
  (0 < 20 /\ 0 < 40 /\ 40 mod 20 = 0 /\ 0 < Np.n_cols (samples4 200)
   /\ 40 + 20 <= length (Np.rows (samples4 200)))
  /\ exists data_train data_test,
      break_train_test reversed (samples4 200) 40 20 (1 # 2) true
      = Returns (data_train, data_test)
      /\ length data_train + length data_test = 8
      /\ data_train ++ data_test
         = map (window_at (Np.rows (samples4 200)) 40 20) (reversed 8).
Proof.
  assert (H1 : 0 < 20) by lia.
  assert (H2 : 0 < 40) by lia.
  assert (H3 : 40 mod 20 = 0) by reflexivity.
  assert (H4 : 0 < Np.n_cols (samples4 200)) by (simpl; lia).
  assert (H5 : 40 + 20 <= length (Np.rows (samples4 200))) by (vm_compute; lia).
  split; [repeat split; assumption|].
  destruct (break_train_test_windows reversed reversed_spec (samples4 200) 40 20
              (1 # 2) true H1 H2 H3 H4 H5) as (tr & te & E1 & E2 & E3 & _).
  exists tr, te. split; [exact E1|]. split; [exact E2|exact E3].
Defined.

(** C1. Between [obs_window] and [obs_window + slide_window] samples the
    window count [floor((n - obs_window) / slide_window)] is 0, and
    [break_train_test] does not produce 0 windows: the empty list of windows
    becomes a 1-D array and the split raises [IndexError]. Here 250 samples,
    [obs_window = 240], [slide_window = 40]. *)
Theorem break_train_test_at_boundary :
  240 mod 40 = 0 /\ 240 <= length (Np.rows (samples4 250))
  /\ (length (Np.rows (samples4 250)) - 240) / 40 = 0
  /\ break_train_test (fun n => seq 0 n) (samples4 250) 240 40 (1 # 2) false
     = Raises IndexError
  /\ break_train_test reversed (samples4 250) 240 40 (1 # 2) true
     = Raises IndexError.
Proof.
  split; [reflexivity|].
  split; [vm_compute; lia|].
  split; [vm_compute; reflexivity|].
  split; vm_compute; reflexivity.
Qed.

Lemma break_train_test_indivisible_witness :
  (0 < 40 /\ 50 mod 40 <> 0 /\ 0 < Np.n_cols (samples4 200))
  /\ exists e,
      break_train_test reversed (samples4 200) 50 40 (1 # 2) true = Raises e
      /\ (e = ValueError \/ e = IndexError).
Proof.
  assert (H1 : 0 < 40) by lia.
  assert (H2 : 50 mod 40 <> 0) by (simpl; discriminate).
  assert (H3 : 0 < Np.n_cols (samples4 200)) by (simpl; lia).
  split; [repeat split; assumption|].
  destruct (break_train_test_indivisible reversed (samples4 200) 50 40
              (1 # 2) true H1 H2 H3) as (e & E1 & E2 & _).
  exists e. split; [exact E1|exact E2].
Defined.

(** C7, as stated, fails: the error raised for an indivisible pair is
    numpy's [ValueError], not a [ConfigurationError]. *)
Lemma break_train_test_indivisible_counterexample :
  50 mod 40 <> 0
  /\ break_train_test reversed (samples4 200) 50 40 (1 # 2) true = Raises ValueError
  /\ ~ raises (break_train_test reversed (samples4 200) 50 40 (1 # 2) true)
              ConfigurationError.
Proof.
  assert (E : break_train_test reversed (samples4 200) 50 40 (1 # 2) true
              = Raises ValueError) by (vm_compute; reflexivity).
  split; [simpl; discriminate|]. split; [exact E|].
  unfold raises. rewrite E. discriminate.
Qed.

(** ** Silence runs: [extract_silence] *)

Lemma sum_app (s t : list nat) : Np.sum (s ++ t) = Np.sum s + Np.sum t.
Proof.
  induction s as [|x s IH]; simpl; [reflexivity|].
  unfold Np.sum in *. simpl. rewrite IH. lia.
Qed.

Lemma incr_last_spec (s : list nat) :
  s <> [] ->
  exists s', incr_last s = Returns s' /\ Np.sum s' = S (Np.sum s) /\ s' <> [].
Proof.
  induction s as [|x s IH]; intros Hs; [congruence|].
  destruct s as [|y s].
  - exists [S x]. simpl. repeat split; discriminate.
  - destruct IH as (s' & E & Hsum & Hne); [discriminate|].
    exists (x :: s'). change (incr_last (x :: y :: s))
      with (s'' <- incr_last (y :: s) ;; Returns (x :: s'')).
    rewrite E. simpl. repeat split; try discriminate.
    unfold Np.sum in *. simpl in *. lia.
Qed.

(** The loop keeps a run open whenever the previous sample is silent, so
    [s[-1] += 1] always finds a last element; every sample adds at most one
    to the total, and a sample above the threshold adds nothing. *)
Lemma silence_loop_spec (threshold : Z) (rest : list Z) :
  forall (prev : Z) (s : list nat),
    ((prev <= threshold)%Z -> s <> []) ->
    exists s', silence_loop threshold prev rest s = Returns s'
               /\ Np.sum s' <= Np.sum s + length rest
               /\ (Forall (fun x => (threshold < x)%Z) rest -> s' = s).
Proof.
  induction rest as [|x rest IH]; intros prev s Hinv; simpl.
  - exists s. split; [reflexivity|]. split; [lia|]. intros _. reflexivity.
  - destruct (Z.leb_spec x threshold) as [Hx|Hx].
    + destruct (Z.gtb_spec prev threshold) as [Hp|Hp].
      * destruct (IH x (s ++ [1])) as (s' & E & Hsum & _).
        { intros _. destruct s; discriminate. }
        exists s'. split; [exact E|]. split.
        -- rewrite sum_app in Hsum. simpl in Hsum. lia.
        -- intros HF. inversion HF; lia.
      * destruct (Z.leb_spec prev threshold) as [Hp'|Hp']; [|lia].
        destruct (incr_last_spec s (Hinv Hp')) as (s1 & E1 & Hsum1 & Hne1).
        rewrite E1. simpl bind.
        destruct (IH x s1) as (s' & E & Hsum & _); [intros _; exact Hne1|].
        exists s'. split; [exact E|]. split; [lia|].
        intros HF. inversion HF; lia.
    + destruct (IH x s) as (s' & E & Hsum & Hsame); [lia|].
      exists s'. split; [exact E|]. split; [lia|].
      intros HF. inversion HF; auto.
Qed.

Lemma extract_silence_spec (data : list Z) (threshold : Z) :
  data <> [] ->
  exists s, extract_silence data threshold = Returns s
            /\ Np.sum s <= length data
            /\ (Forall (fun x => (threshold < x)%Z) data -> s = [0]).
Proof.
  intros Hd. destruct data as [|d0 rest]; [congruence|].
  unfold extract_silence.
  destruct (silence_loop_spec threshold rest d0
              (if (d0 <=? threshold)%Z then [1] else [])) as (s' & E & Hsum & Hsame).
  { intros Hle. destruct (Z.leb_spec d0 threshold); [discriminate|lia]. }
  rewrite E. simpl bind.
  eexists. split; [reflexivity|]. split.
  - simpl length. destruct (Z.leb_spec d0 threshold); destruct s'; simpl in *; lia.
  - intros HF. inversion HF as [|? ? Hd0 Hrest]; subst.
    rewrite (Hsame Hrest). destruct (Z.leb_spec d0 threshold); [lia|reflexivity].
Qed.

Lemma column_nonempty (c : nat) (window : list (list Z)) :
  window <> [] -> column c window <> [] /\ length (column c window) = length window.
Proof.
  intros Hw. unfold column. rewrite length_map. split; [|reflexivity].
  destruct window; [congruence|discriminate].
Qed.

(** C5. For every non-empty window and every column of it,
    [extract_silence] returns run lengths whose sum is at most the window
    length; if no sample of the column is at or below the threshold, the
    run list is the degenerate [[0]], whose mean and variance are 0, and
    (with the threshold 250 of [extract_features_silence]) the two silence
    features of the column are exactly 0 and 0. *)
Theorem silence_runs_bounded (window : list (list Z)) (c : nat) (threshold : Z) :
  window <> [] ->
  exists s,
    extract_silence (column c window) threshold = Returns s
    /\ Np.sum s <= length window
    /\ (Forall (fun x => (threshold < x)%Z) (column c window) ->
        s = [0] /\ Np.mean s = Np.Finite 0 /\ Np.var s = Np.Finite 0)
    /\ (Forall (fun x => (250 < x)%Z) (column c window) ->
        silence_pair (column c window) = Returns [Np.Finite 0; Np.Finite 0]).
Proof.
  intros Hw. destruct (column_nonempty c window Hw) as [Hc Hlen].
  destruct (extract_silence_spec _ threshold Hc) as (s & E & Hsum & Hnone).
  exists s. split; [exact E|]. split; [lia|]. split.
  - intros HF. rewrite (Hnone HF). repeat split; reflexivity.
  - intros HF. destruct (extract_silence_spec _ 250%Z Hc) as (s2 & E2 & _ & Hnone2).
    unfold silence_pair. rewrite E2, (Hnone2 HF). reflexivity.
Qed.

Lemma silence_runs_bounded_witness :
  [[260; 1]; [300; 2]; [251; 3]]%Z <> []
  /\ exists s,
      extract_silence (column 0 [[260; 1]; [300; 2]; [251; 3]]%Z) 250 = Returns s
      /\ Np.sum s <= 3.
Proof.
  assert (H : [[260; 1]; [300; 2]; [251; 3]]%Z <> []) by discriminate.
  split; [exact H|].
  destruct (silence_runs_bounded [[260; 1]; [300; 2]; [251; 3]]%Z 0 250 H)
    as (s & E & Hsum & _).
  exists s. split; [exact E|exact Hsum].
Defined.

(** An empty window is refused at [data[0]]. *)
Lemma extract_silence_empty (threshold : Z) :
  extract_silence [] threshold = Raises IndexError.
Proof. reflexivity. Qed.

(** Every feature row of [extract_features_silence] is made of such pairs:
    on non-empty windows the extraction returns, with [2 * n_cols] features
    per window. *)
Lemma extract_features_silence_shape (n_cols : nat) (data : list (list (list Z))) :
  Forall (fun window => window <> []) data ->
  exists features,
    extract_features_silence n_cols data = Returns features
    /\ length features = length data
    /\ Forall (fun row => length row = 2 * n_cols) features.
Proof.
  intros Hdata. unfold extract_features_silence.
  induction Hdata as [|window data Hw _ IH]; simpl.
  - exists []. repeat split. constructor.
  - destruct IH as (features & E & Hlen & Hrows).
    assert (Hcols : forall l, exists pairs,
                 for_each (fun c => silence_pair (column c window)) l = Returns pairs
                 /\ length (concat pairs) = 2 * length l).
    { induction l as [|c l IHl]; simpl.
      - exists []. split; reflexivity.
      - destruct IHl as (pairs & Ep & Hp).
        destruct (extract_silence_spec _ 250%Z (proj1 (column_nonempty c window Hw)))
          as (s & Es & _).
        unfold silence_pair at 1. rewrite Es. simpl bind. rewrite Ep. simpl bind.
        eexists. split; [reflexivity|]. simpl. lia. }
    destruct (Hcols (seq 0 n_cols)) as (pairs & Ep & Hp).
    rewrite Ep. simpl bind. rewrite E. simpl bind.
    eexists. split; [reflexivity|]. split; [simpl; lia|].
    constructor; [|exact Hrows]. rewrite Hp, length_seq. reflexivity.
Qed.

(** ** Binary scores: [binary_scores] *)














(** ** Majority vote: [classify_aggregation_window] *)

Lemma count_up_keys (x : Z) (d : list (Z * nat)) (k : Z) :
  In k (map fst (count_up x d)) <-> k = x \/ In k (map fst d).
Proof.
  induction d as [|[k' v] d IH]; simpl.
  - intuition.
  - destruct (Z.eqb_spec k' x) as [E|E]; simpl.
    + subst. intuition.
    + rewrite IH. intuition.
Qed.

Lemma counter_keys (window : list Z) :
  forall (d : list (Z * nat)) (k : Z),
    In k (map fst (fold_left (fun d x => count_up x d) window d))
    <-> In k window \/ In k (map fst d).
Proof.
  induction window as [|x window IH]; intros d k; simpl.
  - intuition.
  - rewrite IH, count_up_keys. intuition.
Qed.

Lemma max_from_in (d : list (Z * nat)) :
  forall best, max_from best d = fst best \/ In (max_from best d) (map fst d).
Proof.
  induction d as [|[k v] d IH]; intros best; simpl.
  - left. reflexivity.
  - destruct (snd best <? v).
    + destruct (IH (k, v)) as [E|E]; simpl in E; auto.
    + destruct (IH best) as [E|E]; auto.
Qed.

Lemma get_key (d : list (Z * nat)) (k : Z) :
  In k (map fst d) -> exists v, get d k = Some v.
Proof.
  induction d as [|[k' v] d IH]; simpl; intros Hk; [contradiction|].
  destruct (Z.eqb_spec k' k) as [E|E].
  - exists v. reflexivity.
  - destruct Hk as [Hk|Hk]; [congruence|]. apply IH. exact Hk.
Qed.

(** The label [m] repeated over a window of [n] positions, as line 197
    builds it. *)
Lemma constant_window (m : Z) (n from : nat) :
  map (fun _ => m) (seq from n) = repeat m n.
Proof.
  revert from. induction n as [|n IH]; intros from; simpl; [reflexivity|].
  rewrite IH. reflexivity.
Qed.

(** What a call of [classify_aggregation_window] can do: refuse an empty
    window, leave a window as it is, or fill it with one of its labels. *)
Lemma classify_empty (threshold : Q) :
  classify_aggregation_window [] threshold = Raises ValueError.
Proof. reflexivity. Qed.

Lemma classify_nonempty (window : list Z) (threshold : Q) :
  window <> [] ->
  exists c,
    classify_aggregation_window window threshold = Returns c
    /\ (c = window \/ exists m, In m window /\ c = repeat m (length window)).
Proof.
  intros Hw. unfold classify_aggregation_window.
  destruct (Counter window) as [|kv d] eqn:EC.
  - exfalso. destruct window as [|x window]; [congruence|].
    assert (In x (map fst (Counter (x :: window)))) as Hin
        by (apply counter_keys; left; left; reflexivity).
    rewrite EC in Hin. exact Hin.
  - assert (Hm : In (max_from kv d) (map fst (Counter window))).
    { rewrite EC. simpl. destruct (max_from_in d kv) as [E|E]; auto. }
    simpl max_key. simpl bind. rewrite <- EC.
    destruct (get_key _ _ Hm) as [v Ev].
    unfold getitem. rewrite Ev. simpl bind.
    destruct (fraction_exceeds v (length window) threshold).
    + eexists. split; [reflexivity|]. right.
      exists (max_from kv d). split; [|apply constant_window].
      apply counter_keys in Hm. destruct Hm as [Hm|Hm]; [exact Hm|contradiction].
    + eexists. split; [reflexivity|]. left. reflexivity.
Qed.

Lemma classify_returns (window c : list Z) (threshold : Q) :
  classify_aggregation_window window threshold = Returns c ->
  window <> []
  /\ length c = length window
  /\ (forall x, In x c -> In x window)
  /\ (c = window \/ exists m, c = repeat m (length window)).
Proof.
  intros H. destruct window as [|x window]; [discriminate H|].
  destruct (classify_nonempty (x :: window) threshold) as (c' & E & Hc); [discriminate|].
  rewrite E in H. inversion H; subst c'. clear H.
  split; [discriminate|].
  destruct Hc as [Hc|(m & Hm & Hc)].
  - subst c. split; [reflexivity|]. split; [auto|]. left. reflexivity.
  - split; [rewrite Hc; apply repeat_length|]. split.
    + intros y Hy. rewrite Hc in Hy. apply repeat_spec in Hy. subst y. exact Hm.
    + right. exists m. exact Hc.
Qed.

Lemma counter_repeat (m : Z) (n : nat) :
  forall v, fold_left (fun d x => count_up x d) (repeat m n) [(m, v)] = [(m, v + n)].
Proof.
  induction n as [|n IH]; intros v; simpl.
  - rewrite Nat.add_0_r. reflexivity.
  - rewrite Z.eqb_refl, IH. f_equal. f_equal. lia.
Qed.

(** A window filled with one label is returned as it is, whatever the
    threshold: either it is refilled with the same label or left alone. *)
Lemma classify_constant (m : Z) (n : nat) (threshold : Q) :
  0 < n ->
  classify_aggregation_window (repeat m n) threshold = Returns (repeat m n).
Proof.
  intros Hn. destruct n as [|n]; [lia|].
  unfold classify_aggregation_window, Counter. simpl repeat. simpl fold_left.
  rewrite counter_repeat. simpl max_key. simpl bind.
  unfold getitem. simpl get. rewrite Z.eqb_refl. simpl bind.
  destruct (fraction_exceeds _ _ _); [|reflexivity].
  rewrite constant_window, repeat_length. reflexivity.
Qed.

(** Voting twice changes nothing more. *)
Lemma classify_idempotent (window c : list Z) (threshold : Q) :
  classify_aggregation_window window threshold = Returns c ->
  classify_aggregation_window c threshold = Returns c.
Proof.
  intros H. destruct (classify_returns _ _ _ H) as (Hne & Hlen & _ & [Hc|(m & Hc)]).
  - subst c. exact H.
  - rewrite Hc. apply classify_constant.
    destruct window; [congruence|simpl; lia].
Qed.

(** ** One vote written back: [smooth_slice] *)

Lemma slice_nat_length {A : Type} (a b : nat) (l : list A) :
  length (Py.slice_nat a b l) = Nat.min (b - a) (length l - a).
Proof. unfold Py.slice_nat. rewrite length_firstn, length_skipn. reflexivity. Qed.

Lemma slice_nat_nonempty {A : Type} (a b : nat) (l : list A) :
  Py.slice_nat a b l <> [] <-> a < b /\ a < length l.
Proof.
  rewrite <- length_zero_iff_nil, slice_nat_length. lia.
Qed.

Lemma in_firstn {A : Type} (n : nat) (l : list A) (x : A) :
  In x (firstn n l) -> In x l.
Proof.
  intros H. rewrite <- (firstn_skipn n l). apply in_or_app. left. exact H.
Qed.

Lemma in_skipn {A : Type} (n : nat) (l : list A) (x : A) :
  In x (skipn n l) -> In x l.
Proof.
  intros H. rewrite <- (firstn_skipn n l). apply in_or_app. right. exact H.
Qed.

(** Writing back its own content leaves a list as it is. *)
Lemma assign_slice_self {A : Type} (a b : nat) (l : list A) :
  a <= b -> Py.assign_slice a b (Py.slice_nat a b l) l = l.
Proof.
  intros Hab. unfold Py.assign_slice, Py.slice_nat.
  rewrite Nat.max_r by exact Hab.
  rewrite <- (firstn_skipn a l) at 4. f_equal.
  rewrite <- (firstn_skipn (b - a) (skipn a l)) at 2. f_equal.
  rewrite skipn_skipn. f_equal. lia.
Qed.

Section WriteBack.

Variable A : Type.
Variables (a b : nat) (c l : list A).
Hypothesis Hab : a < b.
Hypothesis Hal : a < length l.
Hypothesis Hc : length c = length (Py.slice_nat a b l).

Lemma assign_slice_length : length (Py.assign_slice a b c l) = length l.
Proof.
  unfold Py.assign_slice. rewrite !length_app, length_firstn, length_skipn, Hc.
  rewrite slice_nat_length. lia.
Qed.

Lemma assign_slice_before : firstn a (Py.assign_slice a b c l) = firstn a l.
Proof.
  unfold Py.assign_slice.
  rewrite firstn_app, length_firstn, Nat.min_l by lia.
  rewrite Nat.sub_diag, firstn_O, app_nil_r.
  apply firstn_all2. rewrite length_firstn. lia.
Qed.

Lemma assign_slice_from : skipn a (Py.assign_slice a b c l) = c ++ skipn b l.
Proof.
  unfold Py.assign_slice. rewrite Nat.max_r by lia.
  rewrite skipn_app, length_firstn, Nat.min_l by lia.
  rewrite Nat.sub_diag. simpl skipn at 2.
  rewrite skipn_all2 by (rewrite length_firstn; lia). reflexivity.
Qed.

Lemma assign_slice_after : skipn b (Py.assign_slice a b c l) = skipn b l.
Proof.
  assert (E : skipn b (Py.assign_slice a b c l)
              = skipn (b - a) (skipn a (Py.assign_slice a b c l)))
    by (rewrite skipn_skipn; f_equal; lia).
  rewrite E, assign_slice_from.
  rewrite slice_nat_length in Hc.
  destruct (Nat.le_gt_cases b (length l)) as [Hb|Hb].
  - rewrite skipn_app, skipn_all2 by lia.
    replace (b - a - length c) with 0 by lia. reflexivity.
  - rewrite (skipn_all2 l) by lia. rewrite app_nil_r.
    apply skipn_all2. lia.
Qed.

Lemma assign_slice_read : Py.slice_nat a b (Py.assign_slice a b c l) = c.
Proof.
  unfold Py.slice_nat. rewrite assign_slice_from.
  rewrite slice_nat_length in Hc.
  destruct (Nat.le_gt_cases b (length l)) as [Hb|Hb].
  - rewrite firstn_app. replace (b - a - length c) with 0 by lia.
    rewrite firstn_O, app_nil_r. apply firstn_all2. lia.
  - rewrite (skipn_all2 l) by lia. rewrite app_nil_r.
    apply firstn_all2. lia.
Qed.

End WriteBack.

(** What a returning [smooth_slice] has done. *)
Lemma smooth_slice_returns (threshold : Q) (a b : nat) (l l1 : list Z) :
  smooth_slice threshold a b l = Returns l1 ->
  a < b /\ a < length l
  /\ length l1 = length l
  /\ firstn a l1 = firstn a l
  /\ skipn b l1 = skipn b l
  /\ settled threshold l1 (a, b)
  /\ (forall x, In x l1 -> In x l)
  /\ (l1 = l \/ exists m, Py.slice_nat a b l1 = repeat m (length (Py.slice_nat a b l))).
Proof.
  unfold smooth_slice. intros H.
  destruct (classify_aggregation_window (Py.slice_nat a b l) threshold) as [c|e] eqn:E;
    simpl in H; [|discriminate].
  inversion H; subst l1; clear H.
  destruct (classify_returns _ _ _ E) as (Hne & Hlen & Hin & Hc).
  apply slice_nat_nonempty in Hne. destruct Hne as [Hab Hal].
  split; [exact Hab|]. split; [exact Hal|].
  split; [apply assign_slice_length; assumption|].
  split; [apply assign_slice_before; assumption|].
  split; [apply assign_slice_after; assumption|].
  split.
  - unfold settled. simpl fst. simpl snd.
    rewrite assign_slice_read by assumption.
    apply (classify_idempotent _ _ _ E).
  - split.
    + intros x Hx. unfold Py.assign_slice in Hx.
      apply in_app_or in Hx. destruct Hx as [Hx|Hx].
      * apply (in_firstn a l x Hx).
      * apply in_app_or in Hx. destruct Hx as [Hx|Hx].
        -- apply Hin in Hx. unfold Py.slice_nat in Hx.
           apply in_firstn, in_skipn in Hx. exact Hx.
        -- apply (in_skipn _ l x Hx).
    + destruct Hc as [Hc|(m & Hc)].
      * left. subst c. apply assign_slice_self. lia.
      * right. exists m. rewrite assign_slice_read by assumption. exact Hc.
Qed.

Lemma smooth_slice_total (threshold : Q) (a b : nat) (l : list Z) :
  a < b -> a < length l -> exists l1, smooth_slice threshold a b l = Returns l1.
Proof.
  intros Hab Hal. unfold smooth_slice.
  destruct (classify_nonempty (Py.slice_nat a b l) threshold) as (c & E & _).
  - apply slice_nat_nonempty. split; assumption.
  - rewrite E. simpl. eexists. reflexivity.
Qed.

Lemma smooth_slice_settled (threshold : Q) (a b : nat) (z : list Z) :
  settled threshold z (a, b) -> smooth_slice threshold a b z = Returns z.
Proof.
  unfold settled, smooth_slice. simpl. intros H. rewrite H. simpl.
  destruct (classify_returns _ _ _ H) as (Hne & _).
  apply slice_nat_nonempty in Hne.
  rewrite assign_slice_self by lia. reflexivity.
Qed.

(** ** The loop as a list of slices *)

Lemma smooth_chunks_slices (window_size : nat) (threshold : Q) (ts : nat) :
  forall bound i l,
    smooth_chunks bound window_size threshold ts i l
    = (l' <- smooth_slices threshold (fst (loop_slices bound window_size ts i)) l ;;
       Returns (snd (loop_slices bound window_size ts i), l')).
Proof.
  induction bound as [|bound IH]; intros i l; simpl.
  - reflexivity.
  - destruct (i + window_size <? ts); [|reflexivity].
    destruct (loop_slices bound window_size ts (i + window_size)) as [slices i'] eqn:E.
    simpl. destruct (smooth_slice threshold i (i + window_size) l) as [l1|e]; simpl.
    + rewrite IH, E. reflexivity.
    + reflexivity.
Qed.

Lemma smooth_slices_app (threshold : Q) (s1 s2 : list (nat * nat)) :
  forall l,
    smooth_slices threshold (s1 ++ s2) l
    = (l1 <- smooth_slices threshold s1 l ;; smooth_slices threshold s2 l1).
Proof.
  induction s1 as [|[a b] s1 IH]; intros l; simpl.
  - reflexivity.
  - destruct (smooth_slice threshold a b l) as [l1|e]; simpl; [apply IH|reflexivity].
Qed.

Lemma smooth_segment_slices (window_size : nat) (threshold : Q) (ts : nat) (l : list Z) :
  smooth_segment window_size threshold ts l
  = smooth_slices threshold (segment_slices window_size ts) l.
Proof.
  unfold smooth_segment, segment_slices.
  rewrite smooth_chunks_slices.
  destruct (loop_slices ts window_size ts 0) as [slices i]. simpl fst. simpl snd.
  rewrite smooth_slices_app.
  destruct (smooth_slices threshold slices l) as [l1|e]; simpl; [|reflexivity].
  destruct (0 <? ts - i); simpl; [|reflexivity].
  destruct (smooth_slice threshold i ts l1); reflexivity.
Qed.

Lemma smooth_segments_slices (window_size : nat) (threshold : Q)
      (traffic_samples : list nat) :
  forall l,
    smooth_segments window_size threshold traffic_samples l
    = smooth_slices threshold (call_slices window_size traffic_samples) l.
Proof.
  induction traffic_samples as [|ts rest IH]; intros l; simpl.
  - reflexivity.
  - rewrite smooth_slices_app, smooth_segment_slices.
    destruct (smooth_slices threshold (segment_slices window_size ts) l); simpl;
      [apply IH|reflexivity].
Qed.

(** The budget [ts] given to the loop is enough: when the loop returns, its
    guard [i + window_size < ts] is false. *)
Lemma smooth_chunks_exit (window_size : nat) (threshold : Q) (ts : nat) :
  forall bound i l i' l',
    ts - i <= bound ->
    smooth_chunks bound window_size threshold ts i l = Returns (i', l') ->
    ts <= i' + window_size.
Proof.
  induction bound as [|bound IH]; intros i l i' l' Hb H; simpl in H.
  - inversion H; subst. lia.
  - destruct (Nat.ltb_spec (i + window_size) ts) as [Hg|Hg].
    + destruct (smooth_slice threshold i (i + window_size) l) as [l1|e] eqn:E;
        simpl in H; [|discriminate].
      apply smooth_slice_returns in E. destruct E as (Hab & _).
      apply (IH (i + window_size) l1 i' l'); [lia|exact H].
    + inversion H; subst. lia.
Qed.

Lemma loop_slices_shape (window_size ts : nat) :
  0 < window_size ->
  forall bound i j,
    i = j * window_size -> ts - i <= bound ->
    let slices := fst (loop_slices bound window_size ts i) in
    let i' := snd (loop_slices bound window_size ts i) in
    Forall (chunk_of window_size ts) slices
    /\ Forall (fun ab => i <= fst ab /\ snd ab <= i') slices
    /\ ForallOrdPairs (fun p q => snd p <= fst q) slices
    /\ (exists j', i' = j' * window_size) /\ i <= i' /\ ts <= i' + window_size.
Proof.
  intros Hw. induction bound as [|bound IH]; intros i j Hi Hb; simpl.
  - repeat split; try constructor; try lia. exists j. exact Hi.
  - destruct (Nat.ltb_spec (i + window_size) ts) as [Hg|Hg]; simpl.
    + specialize (IH (i + window_size) (S j)).
      destruct (loop_slices bound window_size ts (i + window_size)) as [slices i'].
      simpl in *.
      destruct IH as (Hchunks & Hrange & Hord & Hmult & Hle & Hexit); [lia|lia|].
      split; [|split; [|split; [|split; [|split]]]].
      * constructor; [|exact Hchunks].
        exists j. simpl. repeat split; lia.
      * constructor; [simpl; lia|].
        apply Forall_impl with (2 := Hrange). intros ab. lia.
      * constructor; [|exact Hord].
        apply Forall_impl with (2 := Hrange). intros ab. simpl. lia.
      * exact Hmult.
      * lia.
      * exact Hexit.
    + repeat split; try constructor; try lia. exists j. exact Hi.
Qed.

Lemma segment_slices_shape (window_size ts : nat) :
  0 < window_size ->
  Forall (chunk_of window_size ts) (segment_slices window_size ts)
  /\ ForallOrdPairs (fun p q => snd p <= fst q) (segment_slices window_size ts).
Proof.
  intros Hw. unfold segment_slices.
  destruct (loop_slices_shape window_size ts Hw ts 0 0) as
      (Hchunks & Hrange & Hord & (j' & Hmult) & _ & Hexit); [lia|lia|].
  destruct (loop_slices ts window_size ts 0) as [slices i]. simpl in *.
  destruct (Nat.ltb_spec 0 (ts - i)) as [Hlast|Hlast].
  - split.
    + apply Forall_app. split; [exact Hchunks|].
      constructor; [|constructor]. exists j'. simpl. repeat split; lia.
    + clear Hchunks. induction slices as [|p slices IHs]; simpl.
      * constructor; constructor.
      * inversion Hrange; subst. inversion Hord; subst.
        constructor; [|apply IHs; assumption].
        apply Forall_app. split; [assumption|].
        constructor; [simpl; lia|constructor].
  - rewrite app_nil_r. split; assumption.
Qed.

(** ** Length and labels are preserved *)

Lemma smooth_slices_preserves (threshold : Q) (slices : list (nat * nat)) :
  forall l z,
    smooth_slices threshold slices l = Returns z ->
    length z = length l /\ (forall x, In x z -> In x l).
Proof.
  induction slices as [|[a b] slices IH]; intros l z H; simpl in H.
  - inversion H; subst. split; auto.
  - destruct (smooth_slice threshold a b l) as [l1|e] eqn:E; simpl in H; [|discriminate].
    apply smooth_slice_returns in E.
    destruct E as (_ & _ & Hlen & _ & _ & _ & Hin & _).
    destruct (IH l1 z H) as [Hlen' Hin'].
    split; [lia|]. intros x Hx. apply Hin, Hin', Hx.
Qed.

Lemma smooth_slices_total (threshold : Q) (slices : list (nat * nat)) :
  forall l,
    Forall (fun ab => fst ab < snd ab /\ fst ab < length l) slices ->
    exists z, smooth_slices threshold slices l = Returns z.
Proof.
  induction slices as [|[a b] slices IH]; intros l Hs; simpl.
  - exists l. reflexivity.
  - inversion Hs as [|? ? [Hab Hal] Hrest]; subst. simpl in Hab, Hal.
    destruct (smooth_slice_total threshold a b l Hab Hal) as [l1 E].
    rewrite E. simpl bind. apply IH.
    apply smooth_slice_returns in E. destruct E as (_ & _ & Hlen & _).
    rewrite Hlen. exact Hrest.
Qed.

Lemma call_slices_in_range (window_size : nat) (traffic_samples : list nat) (n : nat) :
  0 < window_size ->
  Forall (fun ts => ts <= n) traffic_samples ->
  Forall (fun ab => fst ab < snd ab /\ fst ab < n) (call_slices window_size traffic_samples).
Proof.
  intros Hw Hts. unfold call_slices.
  induction Hts as [|ts rest Hle _ IH]; simpl; [constructor|].
  apply Forall_app. split; [|exact IH].
  destruct (segment_slices_shape window_size ts Hw) as [Hchunks _].
  apply Forall_impl with (2 := Hchunks).
  intros ab (j & _ & Hb & Hlt). lia.
Qed.

Lemma values_length (d : labels) : length (values d) = length d.
Proof. apply length_map. Qed.

(** C10. For a positive window size and segment bounds that do not exceed
    the number of labels, temporal smoothing returns, and what it returns
    has the length of its input and holds only labels of its input. *)
Theorem improve_classification_history_preserves (traffic_samples : list nat)
        (traffic_idx : labels) (window_size : nat) (threshold : Q) :
  0 < window_size ->
  Forall (fun ts => ts <= length traffic_idx) traffic_samples ->
  exists smoothed,
    improve_classification_history traffic_samples traffic_idx window_size threshold
    = Returns smoothed
    /\ length smoothed = length traffic_idx
    /\ (forall x, In x smoothed -> In x (values traffic_idx)).
Proof.
  intros Hw Hts. unfold improve_classification_history.
  rewrite smooth_segments_slices.
  destruct (smooth_slices_total threshold (call_slices window_size traffic_samples)
              (values traffic_idx)) as [z Hz].
  - rewrite values_length. apply call_slices_in_range; assumption.
  - exists z. split; [exact Hz|].
    destruct (smooth_slices_preserves _ _ _ _ Hz) as [Hlen Hin].
    rewrite values_length in Hlen. split; assumption.
Qed.

Lemma improve_classification_history_returns_value (traffic_samples : list nat)
      (traffic_idx : labels) (window_size : nat) (threshold : Q) :
  0 < window_size ->
  Forall (fun ts => ts <= length traffic_idx) traffic_samples ->
  exists smoothed,
    improve_classification_history traffic_samples traffic_idx window_size threshold
    = Returns smoothed
    /\ length smoothed = length traffic_idx.
Proof.
  intros Hw Hts. unfold improve_classification_history.
  rewrite smooth_segments_slices.
  destruct (smooth_slices_total threshold (call_slices window_size traffic_samples)
              (values traffic_idx)) as [z Hz].
  - rewrite values_length. apply call_slices_in_range; assumption.
  - exists z. split; [exact Hz|].
    destruct (smooth_slices_preserves _ _ _ _ Hz) as [Hlen _].
    rewrite values_length in Hlen. exact Hlen.
Qed.

Lemma improve_classification_history_preserves_witness :
  (0 < 4 /\ Forall (fun ts => ts <= length example_labels) [10])
  /\ exists smoothed,
      improve_classification_history [10] example_labels 4 (60 # 100) = Returns smoothed
      /\ length smoothed = 10.
Proof.
  assert (H1 : 0 < 4) by lia.
  assert (H2 : Forall (fun ts => ts <= length example_labels) [10])
    by (constructor; [simpl; lia|constructor]).
  split; [split; assumption|].
  destruct (improve_classification_history_preserves [10] example_labels 4 (60 # 100)
              H1 H2) as (z & E & Hlen & _).
  exists z. split; [exact E|exact Hlen].
Defined.

(** The same holds of every call that returns, whatever its arguments. *)
Lemma improve_classification_history_returns (traffic_samples : list nat)
      (traffic_idx : labels) (window_size : nat) (threshold : Q) (smoothed : list Z) :
  improve_classification_history traffic_samples traffic_idx window_size threshold
  = Returns smoothed ->
  length smoothed = length traffic_idx
  /\ (forall x, In x smoothed -> In x (values traffic_idx)).
Proof.
  unfold improve_classification_history. rewrite smooth_segments_slices. intros H.
  destruct (smooth_slices_preserves _ _ _ _ H) as [Hlen Hin].
  rewrite values_length in Hlen. split; assumption.
Qed.

(** ** Settled slices *)

Lemma slice_nat_firstn {A : Type} (a b n : nat) (l : list A) :
  b <= n -> Py.slice_nat a b (firstn n l) = Py.slice_nat a b l.
Proof.
  intros Hb. unfold Py.slice_nat.
  rewrite skipn_firstn_comm, firstn_firstn. f_equal. lia.
Qed.

Lemma slice_nat_skipn {A : Type} (a b n : nat) (l : list A) :
  n <= a -> Py.slice_nat a b l = Py.slice_nat (a - n) (b - n) (skipn n l).
Proof.
  intros Hn. unfold Py.slice_nat. rewrite skipn_skipn.
  f_equal; [lia|]. f_equal. lia.
Qed.

Lemma slice_nat_shorter {A : Type} (a b b' : nat) (l : list A) :
  b <= b' -> Py.slice_nat a b l = firstn (b - a) (Py.slice_nat a b' l).
Proof.
  intros Hb. unfold Py.slice_nat. rewrite firstn_firstn. f_equal. lia.
Qed.

Lemma firstn_constant {A : Type} (m : A) (k n : nat) :
  firstn k (repeat m n) = repeat m (Nat.min k n).
Proof.
  revert k. induction n as [|n IH]; intros k; simpl.
  - rewrite firstn_nil, Nat.min_0_r. reflexivity.
  - destruct k as [|k]; simpl; [reflexivity|]. rewrite IH. reflexivity.
Qed.

Lemma settled_nonempty (threshold : Q) (l : list Z) (p : nat * nat) :
  settled threshold l p -> fst p < snd p /\ fst p < length l.
Proof.
  unfold settled. intros H.
  destruct (classify_returns _ _ _ H) as (Hne & _).
  apply slice_nat_nonempty. exact Hne.
Qed.

(** A vote on a compatible slice leaves a settled slice settled. *)
Lemma settled_preserved (threshold : Q) (l l1 : list Z) (p q : nat * nat) :
  settled threshold l p ->
  compatible p q ->
  smooth_slice threshold (fst q) (snd q) l = Returns l1 ->
  settled threshold l1 p.
Proof.
  destruct p as [a b], q as [a' b']. unfold compatible. simpl fst. simpl snd.
  intros Hp Hpq Hq.
  destruct (settled_nonempty _ _ _ Hp) as [Hab Hal]. simpl in Hab, Hal.
  apply smooth_slice_returns in Hq.
  destruct Hq as (Hab' & Hal' & Hlen & Hbefore & Hafter & _ & _ & Hwhat).
  unfold settled in *. simpl fst in *. simpl snd in *.
  destruct Hpq as [Hpq|[Hpq|[Ha Hb]]].
  - assert (E : Py.slice_nat a b l1 = Py.slice_nat a b l).
    { rewrite <- (slice_nat_firstn a b a' l1), <- (slice_nat_firstn a b a' l) by lia.
      rewrite Hbefore. reflexivity. }
    rewrite E. exact Hp.
  - assert (E : Py.slice_nat a b l1 = Py.slice_nat a b l).
    { rewrite (slice_nat_skipn a b b' l1), (slice_nat_skipn a b b' l) by lia.
      rewrite Hafter. reflexivity. }
    rewrite E. exact Hp.
  - subst a'. destruct Hwhat as [Hsame|(m & Hm)].
    + subst l1. exact Hp.
    + rewrite (slice_nat_shorter a b b' l1 Hb), Hm, firstn_constant.
      apply classify_constant. rewrite slice_nat_length. lia.
Qed.

Lemma smooth_slices_keep_settled (threshold : Q) (p : nat * nat)
      (slices : list (nat * nat)) :
  Forall (compatible p) slices ->
  forall l z,
    settled threshold l p ->
    smooth_slices threshold slices l = Returns z ->
    settled threshold z p.
Proof.
  induction 1 as [|q slices Hq _ IH]; intros l z Hp H; simpl in H.
  - inversion H; subst. exact Hp.
  - destruct q as [a b].
    destruct (smooth_slice threshold a b l) as [l1|e] eqn:E; simpl in H; [|discriminate].
    apply (IH l1 z); [|exact H].
    apply (settled_preserved threshold l l1 p (a, b)); assumption.
Qed.

(** After the votes on a list of slices in which every slice is compatible
    with the slices that follow it, all of them are settled. *)
Lemma smooth_slices_settle (threshold : Q) (slices : list (nat * nat)) :
  ForallOrdPairs compatible slices ->
  forall l z,
    smooth_slices threshold slices l = Returns z ->
    Forall (settled threshold z) slices.
Proof.
  induction 1 as [|p slices Hp _ IH]; intros l z H; simpl in H.
  - constructor.
  - destruct p as [a b].
    destruct (smooth_slice threshold a b l) as [l1|e] eqn:E; simpl in H; [|discriminate].
    constructor; [|apply (IH l1 z H)].
    apply (smooth_slices_keep_settled threshold (a, b) slices Hp l1 z); [|exact H].
    apply smooth_slice_returns in E. tauto.
Qed.

Lemma smooth_slices_fixpoint (threshold : Q) (slices : list (nat * nat)) (z : list Z) :
  Forall (settled threshold z) slices ->
  smooth_slices threshold slices z = Returns z.
Proof.
  induction 1 as [|[a b] slices Hp _ IH]; simpl; [reflexivity|].
  rewrite (smooth_slice_settled threshold a b z Hp). simpl. exact IH.
Qed.

Lemma smooth_slices_idempotent (threshold : Q) (slices : list (nat * nat))
      (l z : list Z) :
  ForallOrdPairs compatible slices ->
  smooth_slices threshold slices l = Returns z ->
  smooth_slices threshold slices z = Returns z.
Proof.
  intros Hc H. apply smooth_slices_fixpoint.
  apply (smooth_slices_settle threshold slices Hc l z H).
Qed.

(** ** Slices of non-decreasing segment bounds are compatible *)

Lemma chunks_compatible (window_size ts ts' : nat) (p q : nat * nat) :
  0 < window_size -> ts <= ts' ->
  chunk_of window_size ts p -> chunk_of window_size ts' q ->
  compatible p q.
Proof.
  intros Hw Hts (j & Ha & Hb & Hab) (j' & Ha' & Hb' & Hab').
  unfold compatible.
  destruct (Nat.lt_trichotomy j j') as [Hj|[Hj|Hj]].
  - left. assert ((j + 1) * window_size <= j' * window_size)
      by (apply Nat.mul_le_mono_r; lia). lia.
  - right. right. subst j'. split; lia.
  - right. left. assert ((j' + 1) * window_size <= j * window_size)
      by (apply Nat.mul_le_mono_r; lia). lia.
Qed.

Lemma ForallOrdPairs_app {A : Type} (R : A -> A -> Prop) (l1 l2 : list A) :
  ForallOrdPairs R l1 -> ForallOrdPairs R l2 ->
  (forall x y, In x l1 -> In y l2 -> R x y) ->
  ForallOrdPairs R (l1 ++ l2).
Proof.
  intros H1 H2 H12. induction H1 as [|x l1 Hx _ IH]; simpl; [exact H2|].
  constructor.
  - apply Forall_app. split; [exact Hx|].
    apply Forall_forall. intros y Hy. apply H12; [left; reflexivity|exact Hy].
  - apply IH. intros a b Ha Hb. apply H12; [right; exact Ha|exact Hb].
Qed.

Lemma ForallOrdPairs_impl {A : Type} (R S : A -> A -> Prop) (l : list A) :
  (forall x y, In x l -> In y l -> R x y -> S x y) ->
  ForallOrdPairs R l -> ForallOrdPairs S l.
Proof.
  intros HRS H. induction H as [|x l Hx _ IH]; constructor.
  - rewrite Forall_forall in *. intros y Hy.
    apply HRS; [left; reflexivity|right; exact Hy|apply Hx; exact Hy].
  - apply IH. intros a b Ha Hb. apply HRS; right; assumption.
Qed.

Lemma call_slices_chunks (window_size : nat) (traffic_samples : list nat) (n : nat) :
  0 < window_size ->
  Forall (fun ts => n <= ts) traffic_samples ->
  Forall (fun q => exists ts, n <= ts /\ chunk_of window_size ts q)
         (call_slices window_size traffic_samples).
Proof.
  intros Hw Hts. unfold call_slices.
  induction Hts as [|ts rest Hle _ IH]; simpl; [constructor|].
  apply Forall_app. split; [|exact IH].
  destruct (segment_slices_shape window_size ts Hw) as [Hchunks _].
  apply Forall_impl with (2 := Hchunks). intros q Hq. exists ts. split; assumption.
Qed.

Lemma call_slices_compatible (window_size : nat) (traffic_samples : list nat) :
  0 < window_size ->
  StronglySorted le traffic_samples ->
  ForallOrdPairs compatible (call_slices window_size traffic_samples).
Proof.
  intros Hw Hs. unfold call_slices.
  induction Hs as [|ts rest _ IH Hle]; simpl; [constructor|].
  destruct (segment_slices_shape window_size ts Hw) as [Hchunks Hord].
  apply ForallOrdPairs_app.
  - apply ForallOrdPairs_impl with (2 := Hord).
    intros p q _ _ Hpq. left. exact Hpq.
  - exact IH.
  - intros p q Hp Hq.
    rewrite Forall_forall in Hchunks.
    pose proof (call_slices_chunks window_size rest ts Hw Hle) as Hrest.
    rewrite Forall_forall in Hrest.
    destruct (Hrest q Hq) as (ts' & Hts' & Hq').
    apply (chunks_compatible window_size ts ts' p q Hw Hts' (Hchunks p Hp) Hq').
Qed.

(** ** Temporal smoothing: [improve_classification_history] *)

(** Where C9 holds. For a positive window size and segment bounds that are
    non-decreasing and do not exceed the number of labels (a single bound
    in particular), smoothing is idempotent, for every label sequence and
    every threshold: the call returns, and smoothing what it returned
    returns the same sequence again. *)
Lemma improve_classification_history_idempotent (traffic_samples : list nat)
        (traffic_idx : labels) (window_size : nat) (threshold : Q) :
  0 < window_size ->
  Sorted le traffic_samples ->
  Forall (fun ts => ts <= length traffic_idx) traffic_samples ->
  exists smoothed,
    improve_classification_history traffic_samples traffic_idx window_size threshold
    = Returns smoothed
    /\ forall again : labels,
        values again = smoothed ->
        improve_classification_history traffic_samples again window_size threshold
        = Returns smoothed.
Proof.
  intros Hw Hsorted Hts.
  assert (Hss : StronglySorted le traffic_samples)
    by (apply Sorted_StronglySorted; [intros x y z; apply Nat.le_trans|exact Hsorted]).
  unfold improve_classification_history. rewrite smooth_segments_slices.
  destruct (smooth_slices_total threshold (call_slices window_size traffic_samples)
              (values traffic_idx)) as [z Hz].
  - rewrite values_length. apply call_slices_in_range; assumption.
  - exists z. split; [exact Hz|].
    intros again Hagain. rewrite smooth_segments_slices, Hagain.
    apply (smooth_slices_idempotent threshold _ (values traffic_idx) z);
      [apply call_slices_compatible; assumption|exact Hz].
Qed.

Lemma improve_classification_history_idempotent_witness :
  (0 < 4 /\ Sorted le [6; 10] /\ Forall (fun ts => ts <= length example_labels) [6; 10])
  /\ exists smoothed,
      improve_classification_history [6; 10] example_labels 4 (60 # 100) = Returns smoothed
      /\ improve_classification_history [6; 10] (combine (seq 0 10) smoothed) 4 (60 # 100)
         = Returns smoothed.
Proof.
  assert (H1 : 0 < 4) by lia.
  assert (H2 : Sorted le [6; 10]) by (repeat constructor).
  assert (H3 : Forall (fun ts => ts <= length example_labels) [6; 10])
    by (repeat constructor; simpl; lia).
  split; [repeat split; assumption|].
  destruct (improve_classification_history_idempotent [6; 10] example_labels 4
              (60 # 100) H1 H2 H3) as (z & E & Hagain).
  exists z. split; [exact E|]. apply Hagain.
  assert (Hlen : length z = 10).
  { apply improve_classification_history_returns in E. destruct E as [Hl _].
    rewrite Hl. reflexivity. }
  clear - Hlen. unfold values.
  do 11 (destruct z as [|? z]; [simpl in Hlen; try lia|]); try reflexivity.
  simpl in Hlen. lia.
Defined.

(** C9. Smoothing is not idempotent when a segment is shorter than the
    one before it: with segments of 4 and 3 labels every pass starts at the
    first label, the first call leaves [1, 1, 1] at the head of the
    sequence, and the second call, voting on the first four labels again,
    fills them with 1. *)
Theorem improve_classification_history_not_idempotent :
  improve_classification_history [4; 3] (combine (seq 0 7) [1; 1; 2; 3; 4; 5; 6]%Z)
                                 40 (60 # 100)
  = Returns [1; 1; 1; 3; 4; 5; 6]%Z
  /\ improve_classification_history [4; 3] (combine (seq 0 7) [1; 1; 1; 3; 4; 5; 6]%Z)
                                    40 (60 # 100)
     = Returns [1; 1; 1; 1; 4; 5; 6]%Z
  /\ [1; 1; 1; 1; 4; 5; 6]%Z <> [1; 1; 1; 3; 4; 5; 6]%Z.
Proof.
  split; [vm_compute; reflexivity|].
  split; [vm_compute; reflexivity|discriminate].
Qed.

(** Every pass starts again from the first label, so labels from the
    largest segment bound on are never voted on. *)
Lemma smooth_slices_beyond (threshold : Q) (slices : list (nat * nat)) (n : nat) :
  Forall (fun ab => snd ab <= n) slices ->
  forall l z,
    smooth_slices threshold slices l = Returns z -> skipn n z = skipn n l.
Proof.
  induction 1 as [|[a b] slices Hb _ IH]; intros l z H; simpl in H.
  - inversion H. reflexivity.
  - destruct (smooth_slice threshold a b l) as [l1|e] eqn:E; simpl in H; [|discriminate].
    rewrite (IH l1 z H).
    apply smooth_slice_returns in E. destruct E as (_ & _ & _ & _ & Hafter & _).
    simpl in Hb.
    replace n with ((n - b) + b) by lia.
    rewrite <- !skipn_skipn, Hafter. reflexivity.
Qed.

(** The labels from the largest segment bound on are never touched: a
    call that returns leaves every label at a position [n] or later as it
    was, when no entry of [traffic_samples] exceeds [n]. *)
Lemma improve_classification_history_beyond (traffic_samples : list nat)
      (traffic_idx : labels) (window_size : nat) (threshold : Q)
      (smoothed : list Z) (n : nat) :
  0 < window_size ->
  Forall (fun ts => ts <= n) traffic_samples ->
  improve_classification_history traffic_samples traffic_idx window_size threshold
  = Returns smoothed ->
  skipn n smoothed = skipn n (values traffic_idx).
Proof.
  intros Hw Hts. unfold improve_classification_history.
  rewrite smooth_segments_slices.
  apply smooth_slices_beyond.
  unfold call_slices. induction Hts as [|ts rest Hle _ IH]; simpl; [constructor|].
  apply Forall_app. split; [|exact IH].
  destruct (segment_slices_shape window_size ts Hw) as [Hchunks _].
  apply Forall_impl with (2 := Hchunks). intros ab (j & _ & Hb & _). lia.
Qed.

(** C3. Two class segments of 1 and 4 labels: smoothing by segment leaves
    the lone label of the first class alone, but the code, whose second
    pass votes on the labels 0 to 3, overwrites it with the majority label
    of the second class and never reaches the last label. With two
    segments of 4 labels, the second segment is not smoothed at all. *)
Theorem improve_classification_history_crosses_segments :
  improve_classification_history [1; 4] (combine (seq 0 5) [0; 1; 1; 1; 1]%Z)
                                 40 (60 # 100)
  = Returns [1; 1; 1; 1; 1]%Z
  /\ smooth_per_segment 40 (60 # 100) [1; 4] [0; 1; 1; 1; 1]%Z
     = Returns [0; 1; 1; 1; 1]%Z
  /\ improve_classification_history [4; 4] (combine (seq 0 8) [0; 0; 0; 0; 1; 2; 1; 1]%Z)
                                    40 (60 # 100)
     = Returns [0; 0; 0; 0; 1; 2; 1; 1]%Z
  /\ smooth_per_segment 40 (60 # 100) [4; 4] [0; 0; 0; 0; 1; 2; 1; 1]%Z
     = Returns [0; 0; 0; 0; 1; 1; 1; 1]%Z.
Proof.
  repeat split; vm_compute; reflexivity.
Qed.

(** ** The two-model ensemble *)

Lemma as_dict_from (r pre : list Z) :
  for_each (fun i => match nth_error (pre ++ r) i with
                     | Some x => Returns (i, x)
                     | None => Raises IndexError
                     end) (seq (length pre) (length r))
  = Returns (combine (seq (length pre) (length r)) r).
Proof.
  revert pre. induction r as [|x r IH]; intros pre; simpl; [reflexivity|].
  rewrite nth_error_app2, Nat.sub_diag by lia. simpl.
  specialize (IH (pre ++ [x])).
  rewrite <- app_assoc, length_app, Nat.add_1_r in IH. simpl in IH.
  rewrite IH. reflexivity.
Qed.

Lemma as_dict_returns (n : nat) (r : list Z) :
  length r = n -> as_dict n r = Returns (combine (seq 0 n) r).
Proof. intros H. subst n. apply (as_dict_from r []). Qed.

Lemma values_combine (r : list Z) (from : nat) :
  values (combine (seq from (length r)) r) = r.
Proof.
  unfold values. revert from. induction r as [|x r IH]; intros from; simpl; [reflexivity|].
  rewrite IH. reflexivity.
Qed.

Lemma lookup_combine (r : list Z) :
  forall from i,
    from <= i -> i < from + length r ->
    lookup (combine (seq from (length r)) r) i = Returns (nth (i - from) r 0%Z).
Proof.
  induction r as [|x r IH]; intros from i Hle Hlt; simpl in *; [lia|].
  destruct (Nat.eqb_spec from i) as [E|E].
  - subst. rewrite Nat.sub_diag. reflexivity.
  - rewrite IH by lia. destruct (i - from) as [|k] eqn:Ek; [lia|].
    replace (i - S from) with k by lia. reflexivity.
Qed.

Lemma in_combine_seq (y : list Z) (i : nat) (x : Z) :
  forall from,
    In (i, x) (combine (seq from (length y)) y)
    <-> from <= i /\ nth_error y (i - from) = Some x.
Proof.
  induction y as [|y0 y IH]; intros from; simpl.
  - split; [contradiction|]. intros [_ H]. destruct (i - from); discriminate.
  - rewrite IH. split.
    + intros [H|[Hle H]].
      * inversion H; subst. rewrite Nat.sub_diag. split; [lia|reflexivity].
      * split; [lia|]. replace (i - from) with (S (i - S from)) by lia. exact H.
    + intros [Hle H]. destruct (i - from) as [|k] eqn:Ek.
      * left. simpl in H. inversion H. f_equal. lia.
      * right. split; [lia|]. replace (i - S from) with k by lia. exact H.
Qed.

(** [i in possible_mining] holds exactly of the positions whose smoothed
    label is 13 or more. *)
Lemma contains_possible_mining (y : list Z) (i : nat) :
  i < length y ->
  contains (possible_mining_of y) i = (13 <=? nth i y 0)%Z.
Proof.
  intros Hi. unfold contains, possible_mining_of.
  destruct (nth_error y i) as [x|] eqn:Ex;
    [|apply nth_error_None in Ex; lia].
  rewrite (nth_error_nth _ _ _ Ex).
  destruct (Z.leb_spec 13 x) as [Hx|Hx].
  - apply existsb_exists. exists i. split; [|apply Nat.eqb_refl].
    apply in_map_iff. exists (i, x). split; [reflexivity|].
    apply filter_In. split.
    + apply in_combine_seq. rewrite Nat.sub_0_r. split; [lia|exact Ex].
    + simpl. apply Z.leb_le. exact Hx.
  - apply not_true_is_false. intros H.
    apply existsb_exists in H. destruct H as (k & Hk & Hik).
    apply Nat.eqb_eq in Hik. subst k.
    apply in_map_iff in Hk. destruct Hk as ([i' x'] & Hfst & Hin). simpl in Hfst. subst i'.
    apply filter_In in Hin. destruct Hin as [Hin Hge].
    apply in_combine_seq in Hin. rewrite Nat.sub_0_r in Hin. destruct Hin as [_ Hin].
    rewrite Ex in Hin. inversion Hin; subst x'. simpl in Hge.
    apply Z.leb_le in Hge. lia.
Qed.

(** The slice [24:32] of a feature row reads the columns 24 to 31, in
    order, and nothing else. *)
Lemma silence_columns {feature : Type} (row : list feature) (k : nat) :
  nth_error (Py.slice 24 32 row) k
  = if k <? 8 then nth_error row (24 + k) else None.
Proof.
  change 24%Z with (Z.of_nat 24). change 32%Z with (Z.of_nat 32).
  rewrite slice_nonneg. unfold Py.slice_nat.
  change (32 - 24) with 8.
  destruct (Nat.ltb_spec k 8) as [Hk|Hk].
  - rewrite nth_error_firstn.
    destruct (Nat.ltb_spec k 8); [|lia].
    apply nth_error_skipn.
  - apply nth_error_None. rewrite length_firstn. lia.
Qed.

Section EnsembleProperties.

Variable feature : Type.
Variable random_forest_predict : list (list feature) -> list Z.
Variable silence_predict : list (list feature) -> list Z.

(** [predict] answers with one label per feature row. *)
Hypothesis random_forest_labels :
  forall X, length (random_forest_predict X) = length X.
Hypothesis silence_labels :
  forall X, length (silence_predict X) = length X.

(** C2. Let [L1] be the smoothed labels of the bulk classifier and [L2] the
    labels the silence specialist predicts from the columns [24:32] of the
    feature rows. The ensemble returns one label per window: [L2[i]] where
    [L1[i] >= 13] and [L1[i]] elsewhere. *)
Theorem ensemble_override (traffic_samples_number : list nat)
        (norm_pca_test_features : list (list feature)) :
  Forall (fun ts => ts <= length norm_pca_test_features) traffic_samples_number ->
  let n := length norm_pca_test_features in
  let L2 := silence_predict (map (Py.slice 24 32) norm_pca_test_features) in
  exists L1 y_test,
    improve_classification_history
      traffic_samples_number
      (combine (seq 0 n) (random_forest_predict norm_pca_test_features)) 40 (60 # 100)
    = Returns L1
    /\ ensemble random_forest_predict silence_predict
                traffic_samples_number norm_pca_test_features
       = Returns y_test
    /\ length y_test = n
    /\ (forall i, i < n ->
                  nth i y_test 0%Z
                  = if (13 <=? nth i L1 0)%Z then nth i L2 0%Z else nth i L1 0%Z)
    /\ (forall row k, nth_error (Py.slice 24 32 row) k
                      = if k <? 8 then nth_error (row : list feature) (24 + k) else None).
Proof.
  intros Hts n L2.
  set (d1 := combine (seq 0 n) (random_forest_predict norm_pca_test_features)).
  assert (Hd1 : length d1 = n).
  { unfold d1. rewrite length_combine, length_seq, random_forest_labels. apply Nat.min_id. }
  destruct (improve_classification_history_returns_value traffic_samples_number d1 40
              (60 # 100)) as (L1 & E1 & Hlen1); [lia|rewrite Hd1; exact Hts|].
  rewrite Hd1 in Hlen1.
  exists L1. eexists. split; [exact E1|].
  unfold ensemble, classification_random_forests, classification_silence.
  rewrite (as_dict_returns (length norm_pca_test_features)
                           (random_forest_predict norm_pca_test_features))
    by apply random_forest_labels.
  simpl bind. fold n. fold d1. rewrite E1. simpl bind.
  rewrite as_dict_returns by (rewrite silence_labels; reflexivity).
  simpl bind. rewrite length_map. fold n. fold L2.
  assert (HL2 : length L2 = n)
    by (unfold L2; rewrite silence_labels; apply length_map).
  rewrite Hlen1.
  rewrite for_each_returns
    with (g := fun i => if (13 <=? nth i L1 0)%Z then nth i L2 0%Z else nth i L1 0%Z).
  - split; [reflexivity|].
    split; [rewrite length_map; apply length_seq|].
    split; [|intros row k; apply silence_columns].
    intros i Hi. rewrite nth_map_seq by exact Hi. reflexivity.
  - intros i Hi. apply in_seq in Hi.
    rewrite contains_possible_mining by lia.
    destruct (13 <=? nth i L1 0)%Z.
    + rewrite <- HL2 at 1. rewrite lookup_combine by lia.
      rewrite Nat.sub_0_r. reflexivity.
    + destruct (nth_error L1 i) as [x|] eqn:Ex;
        [|apply nth_error_None in Ex; lia].
      rewrite (nth_error_nth _ _ _ Ex). reflexivity.
Qed.

End EnsembleProperties.

Lemma ensemble_override_witness :
  ((forall X, length (example_bulk X) = length X)
   /\ (forall X, length (example_silence X) = length X)
   /\ Forall (fun ts => ts <= length example_features) [2])
  /\ exists y_test,
      ensemble example_bulk example_silence [2] example_features = Returns y_test
      /\ length y_test = 2
      /\ nth 0 y_test 0%Z = 8%Z /\ nth 1 y_test 0%Z = 2%Z.
Proof.
  assert (H1 : forall X, length (example_bulk X) = length X)
    by (intros X; apply length_map).
  assert (H2 : forall X, length (example_silence X) = length X)
    by (intros X; apply length_map).
  assert (H3 : Forall (fun ts => ts <= length example_features) [2])
    by (repeat constructor).
  split; [repeat split; assumption|].
  destruct (ensemble_override Z example_bulk example_silence H1 H2 [2] example_features H3)
    as (L1 & y & E1 & E & Hlen & Hnth & _).
  exists y. split; [exact E|]. split; [exact Hlen|].
  vm_compute in E1. inversion E1; subst L1.
  split; [rewrite (Hnth 0)|rewrite (Hnth 1)]; try reflexivity; simpl; lia.
Defined.

(** * Further properties of the code *)

(** ** The two splits of [break_train_test] *)

Lemma int_fraction_bounds (k : nat) (p : Q) :
  (0 <= p)%Q -> (p <= 1)%Q ->
  (0 <= Py.int (inject_Z (Z.of_nat k) * p) <= Z.of_nat k)%Z.
Proof.
  intros H0 H1. destruct p as [pn pd]. unfold Py.int, Qle in *. simpl in *.
  assert (Hpn : (0 <= pn)%Z) by lia.
  assert (Hle : (pn <= Z.pos pd)%Z) by lia.
  rewrite Z.quot_div_nonneg by nia.
  split.
  - apply Z.div_pos; nia.
  - apply Z.div_le_upper_bound; nia.
Qed.




(** Consecutive windows overlap: the window [i + 1] starts with the last
    [obs_window - slide_window] samples of the window [i]. *)
Lemma window_at_overlap (samples : list (list Z)) (obs_window slide_window i : nat) :
  slide_window <= obs_window ->
  skipn slide_window (window_at samples obs_window slide_window i)
  = firstn (obs_window - slide_window)
           (window_at samples obs_window slide_window (S i)).
Proof.
  intros H. unfold window_at.
  rewrite skipn_firstn_comm, skipn_skipn, firstn_firstn.
  rewrite Nat.min_l by lia. reflexivity.
Qed.

Section Splits.

Variable permutation : nat -> list nat.
Hypothesis permutation_spec : forall n, Permutation (permutation n) (seq 0 n).

(** The value of a call that has a window to return, for a train fraction
    between 0 and 1. *)
Lemma break_train_test_value (data : Np.array2) (obs_window slide_window : nat)
      (train_percentage : Q) (random_split : bool) :
  0 < slide_window -> 0 < obs_window ->
  obs_window mod slide_window = 0 ->
  0 < Np.n_cols data ->
  obs_window + slide_window <= length (Np.rows data) ->
  (0 <= train_percentage)%Q -> (train_percentage <= 1)%Q ->
  let k := (length (Np.rows data) - obs_window) / slide_window in
  let window := window_at (Np.rows data) obs_window slide_window in
  let order := if random_split then permutation k else seq 0 k in
  exists m,
    Z.of_nat m = Py.int (inject_Z (Z.of_nat k) * train_percentage)
    /\ m <= k /\ 1 <= k /\ slide_window * k <= length (Np.rows data) - obs_window
    /\ length order = k /\ Forall (fun i => i < k) order
    /\ break_train_test permutation data obs_window slide_window train_percentage
                        random_split
       = Returns (map window (firstn m order), map window (skipn m order)).
Proof.
  intros Hs Ho Hdiv Hc Hn Hp0 Hp1 k window order.
  destruct (int_fraction_bounds k train_percentage Hp0 Hp1) as [Hm0 Hmk].
  set (mz := Py.int (inject_Z (Z.of_nat k) * train_percentage)) in *.
  exists (Z.to_nat mz).
  set (m := Z.to_nat mz).
  assert (Hm : m <= k) by lia.
  assert (Hlen : length order = k).
  { unfold order. destruct random_split; [|apply length_seq].
    rewrite (Permutation_length (permutation_spec k)). apply length_seq. }
  assert (Hrange : Forall (fun i => i < k) order)
    by (apply order_in_range; exact permutation_spec).
  assert (Hto : Py.slice_to mz order = firstn m order).
  { unfold Py.slice_to, Py.bound. destruct (Z.ltb_spec mz 0); [lia|].
    rewrite Hlen, Nat.min_l by lia. reflexivity. }
  assert (Hfrom : Py.slice_from mz order = skipn m order).
  { unfold Py.slice_from, Py.bound. destruct (Z.ltb_spec mz 0); [lia|].
    rewrite Hlen, Nat.min_l by lia. reflexivity. }
  assert (Hk1 : 1 <= k) by (apply Nat.div_le_lower_bound; lia).
  assert (Hk2 : slide_window * k <= length (Np.rows data) - obs_window)
    by (apply Nat.Div0.mul_div_le).
  split; [unfold m; lia|]. split; [exact Hm|]. split; [exact Hk1|].
  split; [exact Hk2|]. split; [exact Hlen|]. split; [exact Hrange|].
  unfold break_train_test.
  rewrite observation_windows_spec by assumption. fold k. simpl bind.
  destruct (Z.ltb_spec (Z.of_nat k) 0) as [?|_]; [lia|].
  unfold Py.range. rewrite Nat2Z.id.
  assert (Hord : (if random_split
                  then Returns (permutation k)
                  else Returns (seq 0 k)) = Returns order)
    by (unfold order; destruct random_split; reflexivity).
  rewrite Hord. simpl bind. fold mz. rewrite Hto, Hfrom.
  rewrite <- (firstn_skipn m order) in Hrange.
  apply Forall_app in Hrange as [Htr Hte].
  rewrite (take_map _ _ _ Htr). simpl bind.
  rewrite (take_map _ _ _ Hte). reflexivity.
Qed.


(** Without shuffling, the windows come back in temporal order and each
    one starts [slide_window] samples after the one before: the window
    [i + 1] begins with the last [obs_window - slide_window] samples of the
    window [i]. *)
Theorem break_train_test_overlap (data : Np.array2) (obs_window slide_window : nat)
        (train_percentage : Q) :
  0 < slide_window -> 0 < obs_window ->
  obs_window mod slide_window = 0 ->
  0 < Np.n_cols data ->
  obs_window + slide_window <= length (Np.rows data) ->
  (0 <= train_percentage)%Q -> (train_percentage <= 1)%Q ->
  let k := (length (Np.rows data) - obs_window) / slide_window in
  exists data_train data_test,
    break_train_test permutation data obs_window slide_window train_percentage false
    = Returns (data_train, data_test)
    /\ forall i, S i < k ->
                 skipn slide_window (nth i (data_train ++ data_test) [])
                 = firstn (obs_window - slide_window)
                          (nth (S i) (data_train ++ data_test) []).
Proof.
  intros Hs Ho Hdiv Hc Hn Hp0 Hp1 k.
  destruct (break_train_test_value data obs_window slide_window train_percentage
              false Hs Ho Hdiv Hc Hn Hp0 Hp1)
    as (m & _ & _ & _ & _ & _ & _ & E).
  fold k in E. simpl in E.
  eexists. eexists. split; [exact E|].
  intros i Hi. rewrite <- map_app, firstn_skipn.
  rewrite !nth_map_seq by lia.
  apply window_at_overlap.
  assert (Hq : obs_window = slide_window * (obs_window / slide_window))
    by (apply Nat.Div0.div_exact; exact Hdiv).
  destruct (obs_window / slide_window); nia.
Qed.

End Splits.


Lemma break_train_test_overlap_witness :
  (0 < 20 /\ 0 < 40 /\ 40 mod 20 = 0 /\ 0 < Np.n_cols (samples4 200)
   /\ 40 + 20 <= length (Np.rows (samples4 200)) /\ (0 <= 1 # 2)%Q /\ (1 # 2 <= 1)%Q)
  /\ exists data_train data_test,
      break_train_test reversed (samples4 200) 40 20 (1 # 2) false
      = Returns (data_train, data_test)
      /\ skipn 20 (nth 3 (data_train ++ data_test) [])
         = firstn 20 (nth 4 (data_train ++ data_test) []).
Proof.
  assert (H1 : 0 < 20) by lia.
  assert (H2 : 0 < 40) by lia.
  assert (H3 : 40 mod 20 = 0) by reflexivity.
  assert (H4 : 0 < Np.n_cols (samples4 200)) by (simpl; lia).
  assert (H5 : 40 + 20 <= length (Np.rows (samples4 200))) by (vm_compute; lia).
  assert (H6 : (0 <= 1 # 2)%Q) by (unfold Qle; simpl; lia).
  assert (H7 : (1 # 2 <= 1)%Q) by (unfold Qle; simpl; lia).
  split; [repeat split; assumption|].
  destruct (break_train_test_overlap reversed reversed_spec (samples4 200) 40 20
              (1 # 2) H1 H2 H3 H4 H5 H6 H7) as (tr & te & E & Hover).
  exists tr, te. split; [exact E|].
  apply (Hover 3). vm_compute. lia.
Defined.

(** ** The runs found by [extract_silence] *)

Lemma incr_last_app (acc : list nat) (n : nat) :
  incr_last (acc ++ [n]) = Returns (acc ++ [S n]).
Proof.
  induction acc as [|x acc IH]; [reflexivity|].
  change ((x :: acc) ++ [n]) with (x :: (acc ++ [n])).
  destruct (acc ++ [n]) as [|y rest] eqn:E.
  - destruct acc; discriminate.
  - change (incr_last (x :: y :: rest))
      with (s'' <- incr_last (y :: rest) ;; Returns (x :: s'')).
    rewrite IH. reflexivity.
Qed.

(** Samples above the threshold leave the runs as they are. *)
Lemma silence_loop_loud (threshold : Z) (loud rest : list Z) :
  Forall (fun x => (threshold < x)%Z) loud ->
  forall prev acc,
  exists prev',
    silence_loop threshold prev (loud ++ rest) acc
    = silence_loop threshold prev' rest acc
    /\ (loud = [] -> prev' = prev)
    /\ (loud <> [] -> (threshold < prev')%Z).
Proof.
  induction 1 as [|x loud Hx _ IH]; intros prev acc.
  - exists prev. split; [reflexivity|]. split; [reflexivity|congruence].
  - simpl. destruct (Z.leb_spec x threshold); [lia|].
    destruct (IH x acc) as (prev' & E & Hnil & Hcons).
    exists prev'. split; [exact E|]. split; [discriminate|].
    intros _. destruct loud; [rewrite Hnil by reflexivity; exact Hx|].
    apply Hcons. discriminate.
Qed.

(** Samples at or below the threshold that follow such a sample lengthen
    the last run. *)
Lemma silence_loop_more (threshold : Z) (silent rest : list Z) :
  Forall (fun x => (x <= threshold)%Z) silent ->
  forall prev acc n,
    (prev <= threshold)%Z ->
    exists prev',
      silence_loop threshold prev (silent ++ rest) (acc ++ [n])
      = silence_loop threshold prev' rest (acc ++ [n + length silent])
      /\ (prev' <= threshold)%Z.
Proof.
  induction 1 as [|x silent Hx _ IH]; intros prev acc n Hprev.
  - exists prev. rewrite Nat.add_0_r. split; [reflexivity|exact Hprev].
  - simpl. destruct (Z.leb_spec x threshold); [|lia].
    destruct (Z.gtb_spec prev threshold); [lia|].
    destruct (Z.leb_spec prev threshold); [|lia].
    rewrite incr_last_app. simpl bind.
    destruct (IH x acc (S n) Hx) as (prev' & E & Hp).
    exists prev'. rewrite E. split; [|exact Hp].
    f_equal. f_equal. f_equal. lia.
Qed.

(** A stretch of such samples after a sample above the threshold opens a
    run of its length. *)
Lemma silence_loop_run (threshold : Z) (silent rest : list Z) (prev : Z)
      (acc : list nat) :
  Forall (fun x => (x <= threshold)%Z) silent ->
  silent <> [] ->
  (threshold < prev)%Z ->
  exists prev',
    silence_loop threshold prev (silent ++ rest) acc
    = silence_loop threshold prev' rest (acc ++ [length silent])
    /\ (prev' <= threshold)%Z.
Proof.
  intros Hs Hne Hprev. destruct silent as [|x silent]; [congruence|].
  inversion Hs as [|? ? Hx Hrest]; subst.
  simpl. destruct (Z.leb_spec x threshold); [|lia].
  destruct (Z.gtb_spec prev threshold); [|lia].
  apply (silence_loop_more threshold silent rest Hrest x acc 1 Hx).
Qed.

(** A block: samples above the threshold, then at least one sample at or
    below it. The first block of a signal may start with a silent sample;
    every other block starts above the threshold. *)
Definition block_ok (threshold : Z) (b : list Z * list Z) : Prop :=
  Forall (fun x => (threshold < x)%Z) (fst b)
  /\ Forall (fun x => (x <= threshold)%Z) (snd b)
  /\ snd b <> [].

Lemma silence_loop_blocks (threshold : Z) (blocks : list (list Z * list Z))
      (tail : list Z) :
  Forall (fun b => block_ok threshold b /\ fst b <> []) blocks ->
  Forall (fun x => (threshold < x)%Z) tail ->
  forall prev acc,
    (prev <= threshold)%Z ->
    silence_loop threshold prev (lay_out blocks ++ tail) acc
    = Returns (acc ++ map (fun b => length (snd b)) blocks).
Proof.
  intros Hblocks Htail.
  induction Hblocks as [|[loud silent] blocks [(Hl & Hs & Hne) Hlne] _ IH];
    intros prev acc Hprev.
  - simpl. rewrite app_nil_r.
    destruct (silence_loop_loud threshold tail [] Htail prev acc) as (p & E & _).
    rewrite app_nil_r in E. rewrite E. reflexivity.
  - simpl in *. unfold lay_out. simpl. fold (lay_out blocks).
    rewrite <- !app_assoc.
    destruct (silence_loop_loud threshold loud (silent ++ lay_out blocks ++ tail)
                Hl prev acc) as (p1 & E1 & _ & Hp1).
    rewrite E1.
    destruct (silence_loop_run threshold silent (lay_out blocks ++ tail) p1 acc
                Hs Hne (Hp1 Hlne)) as (p2 & E2 & Hp2).
    rewrite E2, (IH p2 _ Hp2), <- app_assoc. reflexivity.
Qed.

(** The run lengths returned by [extract_silence] are the lengths of the
    maximal stretches of samples at or below the threshold, in order:
    whatever way a signal is cut into stretches above the threshold
    followed by non-empty stretches at or below it (the first stretch
    above the threshold and the samples after the last silent stretch may
    be absent), the result is the list of the lengths of the silent
    stretches. *)
Theorem extract_silence_runs (threshold : Z) (first : list Z * list Z)
        (blocks : list (list Z * list Z)) (tail : list Z) :
  block_ok threshold first ->
  Forall (fun b => block_ok threshold b /\ fst b <> []) blocks ->
  Forall (fun x => (threshold < x)%Z) tail ->
  extract_silence (lay_out (first :: blocks) ++ tail) threshold
  = Returns (map (fun b => length (snd b)) (first :: blocks)).
Proof.
  intros (Hl & Hs & Hne) Hblocks Htail. destruct first as [loud silent]. simpl in *.
  unfold lay_out. simpl. fold (lay_out blocks). rewrite <- !app_assoc.
  assert (Hdone : forall p acc,
             (p <= threshold)%Z ->
             (r <- silence_loop threshold p (lay_out blocks ++ tail)
                                (acc ++ [length silent]) ;;
              Returns (match r with [] => [0] | _ => r end))
             = Returns (acc ++ length silent :: map (fun b => length (snd b)) blocks)).
  { intros p acc Hp.
    rewrite (silence_loop_blocks threshold blocks tail Hblocks Htail p _ Hp).
    simpl bind. rewrite <- app_assoc. simpl.
    destruct acc; reflexivity. }
  destruct loud as [|d0 loud].
  - destruct silent as [|d0 silent]; [congruence|].
    inversion Hs as [|? ? Hd0 Hrest]; subst.
    simpl. destruct (Z.leb_spec d0 threshold); [|lia].
    destruct (silence_loop_more threshold silent (lay_out blocks ++ tail) Hrest
                d0 [] 1 Hd0) as (p & E & Hp).
    simpl app in E. rewrite E.
    apply (Hdone p [] Hp).
  - inversion Hl as [|? ? Hd0 Hrest]; subst.
    simpl. destruct (Z.leb_spec d0 threshold); [lia|].
    destruct (silence_loop_loud threshold loud (silent ++ lay_out blocks ++ tail)
                Hrest d0 []) as (p1 & E1 & Hnil & Hcons).
    rewrite E1.
    assert (Hp1 : (threshold < p1)%Z).
    { destruct loud; [rewrite Hnil by reflexivity; exact Hd0|].
      apply Hcons. discriminate. }
    destruct (silence_loop_run threshold silent (lay_out blocks ++ tail) p1 []
                Hs Hne Hp1) as (p2 & E2 & Hp2).
    rewrite E2. apply (Hdone p2 [] Hp2).
Qed.

Lemma extract_silence_runs_witness :
  (block_ok 250 ([300; 260], [1; 2; 3])%Z
   /\ Forall (fun b => block_ok 250 b /\ fst b <> []) [([999], [0; 250])%Z]
   /\ Forall (fun x => (250 < x)%Z) [251]%Z)
  /\ extract_silence [300; 260; 1; 2; 3; 999; 0; 250; 251]%Z 250 = Returns [3; 2].
Proof.
  assert (H1 : block_ok 250 ([300; 260], [1; 2; 3])%Z).
  { repeat split; simpl; repeat constructor; try lia; discriminate. }
  assert (H2 : Forall (fun b => block_ok 250 b /\ fst b <> []) [([999], [0; 250])%Z]).
  { constructor; [|constructor]. split; [|discriminate].
    repeat split; simpl; repeat constructor; try lia; discriminate. }
  assert (H3 : Forall (fun x => (250 < x)%Z) [251]%Z) by (repeat constructor).
  split; [split; [exact H1|split; [exact H2|exact H3]]|].
  exact (extract_silence_runs 250 ([300; 260], [1; 2; 3])%Z [([999], [0; 250])%Z]
                              [251]%Z H1 H2 H3).
Defined.

(** The run lengths add up to the number of samples at or below the
    threshold, and no run is empty unless there is no such sample. *)
Lemma silence_loop_count (threshold : Z) (rest : list Z) :
  forall (prev : Z) (s : list nat),
    ((prev <= threshold)%Z -> s <> []) ->
    exists s', silence_loop threshold prev rest s = Returns s'
               /\ Np.sum s' = Np.sum s + count_silent threshold rest
               /\ (Forall (fun r => 1 <= r) s -> Forall (fun r => 1 <= r) s').
Proof.
  unfold count_silent.
  induction rest as [|x rest IH]; intros prev s Hinv; simpl.
  - exists s. split; [reflexivity|]. split; [lia|auto].
  - destruct (Z.leb_spec x threshold) as [Hx|Hx].
    + destruct (Z.gtb_spec prev threshold) as [Hp|Hp].
      * destruct (IH x (s ++ [1])) as (s' & E & Hsum & Hpos).
        { intros _. destruct s; discriminate. }
        exists s'. split; [exact E|]. split.
        -- rewrite sum_app in Hsum. simpl in *. lia.
        -- intros Hs. apply Hpos. apply Forall_app. split; [exact Hs|].
           repeat constructor.
      * destruct (Z.leb_spec prev threshold) as [Hp'|Hp']; [|lia].
        destruct s as [|r0 s0] eqn:Es using rev_ind; [exfalso; apply (Hinv Hp'); reflexivity|].
        clear IHs0.
        rewrite incr_last_app. simpl bind.
        destruct (IH x (s0 ++ [S r0])) as (s' & E & Hsum & Hpos).
        { intros _. destruct s0; discriminate. }
        exists s'. split; [exact E|]. split.
        -- rewrite sum_app in *. simpl in *. lia.
        -- intros Hs. apply Hpos. apply Forall_app in Hs. destruct Hs as [Hs _].
           apply Forall_app. split; [exact Hs|]. constructor; [lia|constructor].
    + destruct (IH x s) as (s' & E & Hsum & Hpos); [lia|].
      exists s'. split; [exact E|]. split; [simpl; lia|exact Hpos].
Qed.

(** On a non-empty signal [extract_silence] returns, and the run lengths
    add up to the number of samples at or below the threshold. When there
    is such a sample every run has at least one sample; when there is none
    the result is the single run [0]. There are never more runs than
    silent samples (or than one). *)
Theorem extract_silence_count (data : list Z) (threshold : Z) :
  data <> [] ->
  exists s,
    extract_silence data threshold = Returns s
    /\ Np.sum s = count_silent threshold data
    /\ (0 < count_silent threshold data -> Forall (fun r => 1 <= r) s)
    /\ length s <= Nat.max 1 (count_silent threshold data).
Proof.
  intros Hd. destruct data as [|d0 rest]; [congruence|].
  unfold extract_silence.
  destruct (silence_loop_count threshold rest d0
              (if (d0 <=? threshold)%Z then [1] else [])) as (s' & E & Hsum & Hpos).
  { intros Hle. destruct (Z.leb_spec d0 threshold); [discriminate|lia]. }
  rewrite E. simpl bind.
  assert (Hpos' : Forall (fun r => 1 <= r) s').
  { apply Hpos. destruct (d0 <=? threshold)%Z; repeat constructor. }
  assert (Hcount : count_silent threshold (d0 :: rest)
                   = Np.sum (if (d0 <=? threshold)%Z then [1] else [])
                     + count_silent threshold rest).
  { unfold count_silent. simpl. destruct (d0 <=? threshold)%Z; reflexivity. }
  assert (Hlen : length s' <= Np.sum s').
  { clear - Hpos'. induction Hpos' as [|r s Hr _ IH]; simpl; [lia|].
    unfold Np.sum in *. simpl. lia. }
  eexists. split; [reflexivity|]. rewrite Hcount, <- Hsum.
  destruct s' as [|r s'].
  - split; [reflexivity|]. split; [simpl; lia|simpl; lia].
  - split; [reflexivity|]. split; [intros _; exact Hpos'|]. lia.
Qed.

Lemma extract_silence_count_witness :
  [300; 1; 2; 999; 0]%Z <> []
  /\ exists s, extract_silence [300; 1; 2; 999; 0]%Z 250 = Returns s /\ Np.sum s = 3.
Proof.
  assert (H : [300; 1; 2; 999; 0]%Z <> []) by discriminate.
  split; [exact H|].
  destruct (extract_silence_count [300; 1; 2; 999; 0]%Z 250 H) as (s & E & Hsum & _).
  exists s. split; [exact E|exact Hsum].
Defined.

(** ** The feature matrix of [extract_features_silence] *)

Lemma extract_features_silence_shape_witness :
  Forall (fun window => window <> []) [[[260; 1]; [300; 2]]; [[0; 0]; [251; 900]]]%Z
  /\ exists features,
      extract_features_silence 2 [[[260; 1]; [300; 2]]; [[0; 0]; [251; 900]]]%Z
      = Returns features
      /\ length features = 2
      /\ Forall (fun row => length row = 2 * 2) features.
Proof.
  assert (H : Forall (fun window : list (list Z) => window <> [])
                     [[[260; 1]; [300; 2]]; [[0; 0]; [251; 900]]]%Z)
    by (repeat constructor; discriminate).
  split; [exact H|].
  exact (extract_features_silence_shape 2 _ H).
Defined.




Lemma concat_pairs {A B : Type} (a : B) (l : list A) :
  concat (map (fun _ => [a; a]) l) = repeat a (2 * length l).
Proof.
  induction l as [|x l IH]; simpl; [reflexivity|].
  rewrite IH. replace (length l + S (length l + 0)) with (S (2 * length l)) by lia.
  reflexivity.
Qed.

(** Windows in which every counter of every sample is above 250 give the
    feature rows made of zeros only. *)
Theorem extract_features_silence_no_silence (n_cols : nat)
        (data : list (list (list Z))) :
  Forall (fun window =>
            window <> []
            /\ Forall (fun row => length row = n_cols
                                  /\ Forall (fun x => (250 < x)%Z) row) window) data ->
  extract_features_silence n_cols data
  = Returns (map (fun _ => repeat (Np.Finite 0) (2 * n_cols)) data).
Proof.
  intros Hdata. unfold extract_features_silence.
  apply for_each_returns. intros window Hin.
  rewrite Forall_forall in Hdata. destruct (Hdata window Hin) as [Hw Hrows].
  rewrite for_each_returns with (g := fun _ => [Np.Finite 0; Np.Finite 0]).
  - simpl bind. f_equal.
    rewrite concat_pairs, length_seq. reflexivity.
  - intros c Hc. apply in_seq in Hc.
    destruct (column_nonempty c window Hw) as [Hcol _].
    destruct (extract_silence_spec _ 250%Z Hcol) as (s & E & _ & Hnone).
    unfold silence_pair. rewrite E. simpl bind.
    rewrite Hnone; [reflexivity|].
    unfold column. apply Forall_map.
    apply Forall_impl with (2 := Hrows). intros row [Hlen Hloud].
    rewrite Forall_forall in Hloud. apply Hloud. apply nth_In. lia.
Qed.

Lemma extract_features_silence_no_silence_witness :
  Forall (fun window =>
            window <> []
            /\ Forall (fun row => length row = 1
                                  /\ Forall (fun x => (250 < x)%Z) row) window)
         [repeat [260%Z] 10]
  /\ extract_features_silence 1 [repeat [260%Z] 10]
     = Returns [[Np.Finite 0; Np.Finite 0]].
Proof.
  assert (H : Forall (fun window =>
                        window <> []
                        /\ Forall (fun row => length row = 1
                                              /\ Forall (fun x => (250 < x)%Z) row) window)
                     [repeat [260%Z] 10]).
  { constructor; [|constructor]. split; [discriminate|].
    simpl. repeat (constructor; [split; [reflexivity|constructor; [lia|constructor]]|]).
    constructor. }
  split; [exact H|].
  exact (extract_features_silence_no_silence 1 _ H).
Defined.

(** ** The true labels: [get_obs_classes] *)

Lemma nth_concat_blocks {A : Type} (blocks : list (list A)) (n : nat) (d : A) :
  Forall (fun b => length b = n) blocks ->
  forall j r, r < n ->
              nth (j * n + r) (concat blocks) d = nth r (nth j blocks []) d.
Proof.
  induction 1 as [|b blocks Hb _ IH]; intros j r Hr.
  - simpl. destruct j; destruct (_ + _); destruct r; reflexivity.
  - destruct j as [|j]; simpl.
    + rewrite app_nth1 by lia. reflexivity.
    + rewrite app_nth2 by lia.
      replace (n + j * n + r - length b) with (j * n + r) by lia.
      apply IH. exact Hr.
Qed.

Lemma nth_map_in {A B : Type} (f : A -> B) (l : list A) (d : B) (d' : A) (j : nat) :
  j < length l -> nth j (map f l) d = f (nth j l d').
Proof.
  revert j. induction l as [|x l IH]; intros j Hj; simpl in *; [lia|].
  destruct j; [reflexivity|]. apply IH. lia.
Qed.

Lemma length_concat_blocks {A : Type} (blocks : list (list A)) (n : nat) :
  Forall (fun b => length b = n) blocks ->
  length (concat blocks) = length blocks * n.
Proof.
  induction 1 as [|b blocks Hb _ IH]; simpl; [reflexivity|].
  rewrite length_app, IH, Hb. reflexivity.
Qed.

(** For a non-empty list of classes the label array has [n_obs_windows]
    rows per class, class after class in the order of the list: the row
    [j * n_obs_windows + r] holds [n_elems] copies of the class [j]. The
    labels therefore assume that every class contributes the same number
    of windows, in class order. *)
Theorem get_obs_classes_rows (n_obs_windows n_elems : nat) (traffic_classes : list Z) :
  traffic_classes <> [] ->
  exists obs_classes,
    get_obs_classes n_obs_windows n_elems traffic_classes = Returns obs_classes
    /\ length obs_classes = length traffic_classes * n_obs_windows
    /\ forall j r, j < length traffic_classes -> r < n_obs_windows ->
                   nth (j * n_obs_windows + r) obs_classes []
                   = repeat (nth j traffic_classes 0%Z) n_elems.
Proof.
  intros Hne. unfold get_obs_classes.
  set (blocks := map (fun t => repeat (repeat t n_elems) n_obs_windows) traffic_classes).
  assert (Hblocks : Forall (fun b => length b = n_obs_windows) blocks).
  { unfold blocks. apply Forall_map. apply Forall_forall. intros t _.
    apply repeat_length. }
  rewrite concatenate_nonempty
    by (unfold blocks; rewrite length_map; destruct traffic_classes; [congruence|simpl; lia]).
  eexists. split; [reflexivity|]. split.
  - rewrite (length_concat_blocks _ _ Hblocks). unfold blocks. rewrite length_map.
    reflexivity.
  - intros j r Hj Hr.
    rewrite (nth_concat_blocks _ _ _ Hblocks) by exact Hr.
    unfold blocks. rewrite (nth_map_in _ _ _ 0%Z) by exact Hj.
    apply nth_repeat_lt. exact Hr.
Qed.

Lemma get_obs_classes_rows_witness :
  [0; 1; 7]%Z <> []
  /\ exists obs_classes,
      get_obs_classes 184 1 [0; 1; 7]%Z = Returns obs_classes
      /\ length obs_classes = 3 * 184
      /\ nth (2 * 184 + 5) obs_classes [] = [7%Z].
Proof.
  assert (H : [0; 1; 7]%Z <> []) by discriminate.
  split; [exact H|].
  destruct (get_obs_classes_rows 184 1 [0; 1; 7]%Z H) as (rows & E & Hlen & Hnth).
  exists rows. split; [exact E|]. split; [exact Hlen|].
  apply (Hnth 2 5); simpl; lia.
Defined.

(** Without any class there is nothing to stack. *)
Lemma get_obs_classes_no_class (n_obs_windows n_elems : nat) :
  get_obs_classes n_obs_windows n_elems [] = Raises ValueError.
Proof. reflexivity. Qed.

(** ** Prediction dicts: the loop that ends every [classification_*] *)

Lemma for_each_ext {A B : Type} (f g : A -> outcome B) (l : list A) :
  (forall a, In a l -> f a = g a) -> for_each f l = for_each g l.
Proof.
  induction l as [|a l IH]; intros H; simpl; [reflexivity|].
  rewrite (H a) by (left; reflexivity).
  rewrite IH by (intros b Hb; apply H; right; exact Hb). reflexivity.
Qed.

Lemma for_each_raises {A B : Type} (f : A -> outcome B) (l1 l2 : list A) (a : A)
      (e : exn) :
  (forall x, In x l1 -> exists b, f x = Returns b) ->
  f a = Raises e ->
  for_each f (l1 ++ a :: l2) = Raises e.
Proof.
  intros H1 Ha. induction l1 as [|x l1 IH]; simpl.
  - rewrite Ha. reflexivity.
  - destruct (H1 x) as [b Hb]; [left; reflexivity|]. rewrite Hb. simpl bind.
    rewrite IH by (intros y Hy; apply H1; right; exact Hy). reflexivity.
Qed.

Lemma keys_combine (r : list Z) (from : nat) :
  map fst (combine (seq from (length r)) r) = seq from (length r).
Proof.
  revert from. induction r as [|x r IH]; intros from; simpl; [reflexivity|].
  rewrite IH. reflexivity.
Qed.

(** When the model answers with at least one label per row, the loop
    builds the dict [{0: result[0], ..., n - 1: result[n - 1]}], keys in
    increasing order: reading the key [i] gives back [result[i]], and the
    values, in the order of the dict, are the first [n] labels. With fewer
    labels than rows the loop stops on [IndexError]. *)
Theorem as_dict_round_trip (n : nat) (result : list Z) :
  (n <= length result ->
   exists traffic_idx,
     as_dict n result = Returns traffic_idx
     /\ map fst traffic_idx = seq 0 n
     /\ values traffic_idx = firstn n result
     /\ forall i, i < n -> lookup traffic_idx i = Returns (nth i result 0%Z))
  /\ (length result < n -> as_dict n result = Raises IndexError).
Proof.
  split.
  - intros Hn.
    assert (Hlen : length (firstn n result) = n) by (rewrite length_firstn; lia).
    exists (combine (seq 0 n) (firstn n result)). split.
    + transitivity (as_dict n (firstn n result));
        [|apply as_dict_returns; exact Hlen].
      unfold as_dict. apply for_each_ext. intros i Hi. apply in_seq in Hi.
      rewrite nth_error_firstn. destruct (Nat.ltb_spec i n); [reflexivity|lia].
    + rewrite <- Hlen at 1 3 4.
      split; [rewrite keys_combine, Hlen; reflexivity|].
      split; [apply values_combine|].
      intros i Hi. rewrite <- Hlen at 1. rewrite lookup_combine by lia.
      rewrite Nat.sub_0_r.
      rewrite <- (firstn_skipn n result) at 2. rewrite app_nth1 by lia. reflexivity.
  - intros Hn. unfold as_dict.
    replace n with (length result + S (n - length result - 1)) by lia.
    rewrite seq_app. simpl seq.
    apply for_each_raises.
    + intros i Hi. apply in_seq in Hi.
      destruct (nth_error result i) as [x|] eqn:E; [eexists; reflexivity|].
      apply nth_error_None in E. lia.
    + simpl. destruct (nth_error result (length result)) as [x|] eqn:E; [|reflexivity].
      assert (length result < length result)
        by (apply nth_error_Some; rewrite E; discriminate).
      lia.
Qed.

(** ** Which label wins the vote *)













(** ** The smoothing as a function on label lists *)

Lemma vote_returns (threshold : Q) (chunk : list Z) :
  chunk <> [] -> classify_aggregation_window chunk threshold = Returns (vote threshold chunk).
Proof.
  intros H. unfold vote.
  destruct (classify_nonempty chunk threshold H) as (c & E & _). rewrite E. reflexivity.
Qed.

Lemma vote_length (threshold : Q) (chunk : list Z) :
  length (vote threshold chunk) = length chunk.
Proof.
  unfold vote.
  destruct (classify_aggregation_window chunk threshold) as [c|e] eqn:E; [|reflexivity].
  apply classify_returns in E. tauto.
Qed.

Lemma vote_chunks_nil (fuel window_size : nat) (threshold : Q) :
  vote_chunks fuel window_size threshold [] = [].
Proof. destruct fuel; reflexivity. Qed.

Lemma vote_chunks_enough (window_size : nat) (threshold : Q) :
  0 < window_size ->
  forall f1 f2 l,
    length l <= f1 -> length l <= f2 ->
    vote_chunks f1 window_size threshold l = vote_chunks f2 window_size threshold l.
Proof.
  intros Hw. induction f1 as [|f1 IH]; intros f2 l H1 H2.
  - destruct l; [|simpl in H1; lia]. rewrite !vote_chunks_nil. reflexivity.
  - destruct l as [|x l]; [rewrite !vote_chunks_nil; reflexivity|].
    destruct f2 as [|f2]; [simpl in H2; lia|].
    simpl vote_chunks. f_equal.
    apply IH; rewrite length_skipn; simpl length in *; lia.
Qed.

Lemma vote_all_unfold (window_size : nat) (threshold : Q) (l : list Z) :
  0 < window_size -> l <> [] ->
  vote_all window_size threshold l
  = vote threshold (firstn window_size l)
    ++ vote_all window_size threshold (skipn window_size l).
Proof.
  intros Hw Hl. unfold vote_all. destruct l as [|x l]; [congruence|].
  simpl length. simpl vote_chunks. f_equal.
  apply vote_chunks_enough;
    [exact Hw|rewrite ?length_skipn; simpl length; lia..].
Qed.

Lemma vote_all_length (window_size : nat) (threshold : Q) (l : list Z) :
  length (vote_all window_size threshold l) = length l.
Proof.
  unfold vote_all. generalize (length l) at 1 as fuel. intros fuel. revert l.
  induction fuel as [|fuel IH]; intros l; [reflexivity|].
  destruct l as [|x l]; [reflexivity|].
  simpl vote_chunks. rewrite length_app, vote_length, IH.
  rewrite length_firstn, length_skipn. lia.
Qed.

Lemma smooth_slice_value (threshold : Q) (a b : nat) (l : list Z) :
  a < b -> a < length l ->
  smooth_slice threshold a b l
  = Returns (firstn a l ++ vote threshold (Py.slice_nat a b l) ++ skipn b l).
Proof.
  intros Hab Hal. unfold smooth_slice.
  rewrite vote_returns by (apply slice_nat_nonempty; split; assumption).
  simpl bind. unfold Py.assign_slice. rewrite Nat.max_r by lia. reflexivity.
Qed.

Lemma slice_nat_split {A : Type} (a b c : nat) (l : list A) :
  a <= b -> b <= c ->
  firstn (b - a) (Py.slice_nat a c l) = Py.slice_nat a b l
  /\ skipn (b - a) (Py.slice_nat a c l) = Py.slice_nat b c l.
Proof.
  intros Hab Hbc. unfold Py.slice_nat. split.
  - rewrite firstn_firstn. f_equal. lia.
  - rewrite skipn_firstn_comm, skipn_skipn. f_equal; [lia|]. f_equal. lia.
Qed.

(** One [ts] of the [for] loop, from the index [i] on: the labels before
    [i] and from [ts] on are kept, the labels between are voted on chunk
    by chunk, each chunk on its own labels. *)
Lemma smooth_from (window_size : nat) (threshold : Q) (ts : nat) :
  0 < window_size ->
  forall bound i l,
    ts <= length l -> i <= ts -> ts - i <= bound ->
    ('(i', l1) <- smooth_chunks bound window_size threshold ts i l ;;
     if 0 <? ts - i' then smooth_slice threshold i' ts l1 else Returns l1)
    = Returns (firstn i l
                 ++ vote_all window_size threshold (Py.slice_nat i ts l)
                 ++ skipn ts l).
Proof.
  intros Hw.
  assert (Hlast : forall i l,
             ts <= length l -> i <= ts -> ts <= i + window_size ->
             (if 0 <? ts - i then smooth_slice threshold i ts l else Returns l)
             = Returns (firstn i l
                          ++ vote_all window_size threshold (Py.slice_nat i ts l)
                          ++ skipn ts l)).
  { intros i l Hts Hi Hexit.
    destruct (Nat.ltb_spec 0 (ts - i)) as [Hlt|Hge].
    - rewrite smooth_slice_value by lia.
      rewrite vote_all_unfold by (try apply slice_nat_nonempty; lia).
      rewrite (@firstn_all2 _ window_size (Py.slice_nat i ts l))
        by (rewrite slice_nat_length; lia).
      rewrite (@skipn_all2 _ window_size (Py.slice_nat i ts l))
        by (rewrite slice_nat_length; lia).
      change (vote_all window_size threshold []) with (@nil Z).
      rewrite app_nil_r. reflexivity.
    - assert (i = ts) by lia. subst i.
      unfold Py.slice_nat. rewrite Nat.sub_diag. simpl.
      rewrite firstn_skipn. reflexivity. }
  induction bound as [|bound IH]; intros i l Hts Hi Hb.
  - simpl. apply Hlast; lia.
  - simpl smooth_chunks.
    destruct (Nat.ltb_spec (i + window_size) ts) as [Hg|Hg].
    + rewrite smooth_slice_value by lia. simpl bind.
      set (c := vote threshold (Py.slice_nat i (i + window_size) l)).
      assert (Hc : length c = window_size).
      { unfold c. rewrite vote_length, slice_nat_length. lia. }
      set (l1 := firstn i l ++ c ++ skipn (i + window_size) l).
      assert (Hl1 : length l1 = length l).
      { unfold l1. rewrite !length_app, length_firstn, length_skipn. lia. }
      assert (Hpre : firstn (i + window_size) l1 = firstn i l ++ c).
      { unfold l1. rewrite app_assoc.
        rewrite firstn_app, firstn_all2 by (rewrite length_app, length_firstn; lia).
        rewrite length_app, length_firstn.
        replace (i + window_size - (Nat.min i (length l) + length c)) with 0 by lia.
        rewrite firstn_O, app_nil_r. reflexivity. }
      assert (Hpost : skipn (i + window_size) l1 = skipn (i + window_size) l).
      { unfold l1. rewrite app_assoc.
        rewrite skipn_app, skipn_all2 by (rewrite length_app, length_firstn; lia).
        rewrite length_app, length_firstn.
        replace (i + window_size - (Nat.min i (length l) + length c)) with 0 by lia.
        reflexivity. }
      rewrite (IH (i + window_size) l1) by lia.
      f_equal. rewrite Hpre.
      assert (Hs1 : Py.slice_nat (i + window_size) ts l1
                    = Py.slice_nat (i + window_size) ts l)
        by (unfold Py.slice_nat; rewrite Hpost; reflexivity).
      assert (Hs2 : skipn ts l1 = skipn ts l).
      { replace ts with ((ts - (i + window_size)) + (i + window_size)) by lia.
        rewrite <- (skipn_skipn (ts - (i + window_size)) (i + window_size) l1).
        rewrite <- (skipn_skipn (ts - (i + window_size)) (i + window_size) l).
        rewrite Hpost. reflexivity. }
      rewrite Hs1, Hs2.
      rewrite (vote_all_unfold window_size threshold (Py.slice_nat i ts l))
        by (try apply slice_nat_nonempty; lia).
      destruct (slice_nat_split i (i + window_size) ts l) as [Hf Hk]; [lia|lia|].
      replace (i + window_size - i) with window_size in Hf, Hk by lia.
      rewrite Hf, Hk. fold c. rewrite <- !app_assoc. reflexivity.
    + simpl bind. apply Hlast; lia.
Qed.

Lemma smooth_segment_value (window_size : nat) (threshold : Q) (ts : nat) (l : list Z) :
  0 < window_size -> ts <= length l ->
  smooth_segment window_size threshold ts l
  = Returns (smooth_prefix window_size threshold l ts).
Proof.
  intros Hw Hts. unfold smooth_segment, smooth_prefix.
  rewrite (smooth_from window_size threshold ts Hw ts 0 l) by lia.
  unfold Py.slice_nat. rewrite Nat.sub_0_r. reflexivity.
Qed.

Lemma smooth_prefix_length (window_size : nat) (threshold : Q) (l : list Z) (ts : nat) :
  length (smooth_prefix window_size threshold l ts) = length l.
Proof.
  unfold smooth_prefix.
  rewrite length_app, vote_all_length, length_firstn, length_skipn. lia.
Qed.

(** For a positive window size and bounds within the labels, the whole
    call is a fold of passes, one per entry of [traffic_samples] and each
    over the first [ts] labels of what the pass before left: the prefix is
    cut into consecutive chunks of [window_size] labels (the last one
    shorter), every chunk is replaced by the vote on its own labels, and
    the labels from [ts] on are kept. *)
Theorem improve_classification_history_fold (traffic_samples : list nat)
        (traffic_idx : labels) (window_size : nat) (threshold : Q) :
  0 < window_size ->
  Forall (fun ts => ts <= length traffic_idx) traffic_samples ->
  improve_classification_history traffic_samples traffic_idx window_size threshold
  = Returns (fold_left (smooth_prefix window_size threshold) traffic_samples
                       (values traffic_idx)).
Proof.
  intros Hw Hts. unfold improve_classification_history.
  rewrite <- values_length in Hts.
  revert Hts. generalize (values traffic_idx) as l.
  induction traffic_samples as [|ts rest IH]; intros l Hts; simpl.
  - reflexivity.
  - inversion Hts as [|? ? Hle Hrest]; subst.
    rewrite smooth_segment_value by assumption. simpl bind.
    apply IH. rewrite smooth_prefix_length. exact Hrest.
Qed.

Lemma improve_classification_history_fold_witness :
  (0 < 4 /\ Forall (fun ts => ts <= length example_labels) [10])
  /\ improve_classification_history [10] example_labels 4 (60 # 100)
     = Returns [1; 1; 1; 1; 1; 2; 2; 3; 2; 4]%Z.
Proof.
  assert (H1 : 0 < 4) by lia.
  assert (H2 : Forall (fun ts => ts <= length example_labels) [10])
    by (constructor; [simpl; lia|constructor]).
  split; [split; assumption|].
  rewrite (improve_classification_history_fold [10] example_labels 4 (60 # 100) H1 H2).
  vm_compute. reflexivity.
Defined.

(** ** Unanimous labels, and when the call returns at all *)

Lemma skipn_constant {A : Type} (m : A) (k n : nat) :
  skipn k (repeat m n) = repeat m (n - k).
Proof.
  revert k. induction n as [|n IH]; intros k; simpl.
  - destruct k; reflexivity.
  - destruct k as [|k]; simpl; [reflexivity|]. apply IH.
Qed.

(** A sequence that holds one label only is returned as it is. *)
Theorem improve_classification_history_unanimous (traffic_samples : list nat)
        (traffic_idx : labels) (window_size : nat) (threshold : Q) (m : Z) :
  0 < window_size ->
  Forall (fun ts => ts <= length traffic_idx) traffic_samples ->
  values traffic_idx = repeat m (length traffic_idx) ->
  improve_classification_history traffic_samples traffic_idx window_size threshold
  = Returns (repeat m (length traffic_idx)).
Proof.
  intros Hw Hts Hm. unfold improve_classification_history.
  rewrite smooth_segments_slices, Hm.
  apply smooth_slices_fixpoint.
  pose proof (call_slices_in_range window_size traffic_samples _ Hw Hts) as Hrange.
  apply Forall_impl with (2 := Hrange). intros [a b] [Hab Hal]. simpl in *.
  unfold settled. simpl fst. simpl snd.
  unfold Py.slice_nat. rewrite skipn_constant, firstn_constant.
  apply classify_constant. lia.
Qed.

Lemma improve_classification_history_unanimous_witness :
  (0 < 4 /\ Forall (fun ts => ts <= length (combine (seq 0 8) (repeat 0%Z 8))) [8; 8]
   /\ values (combine (seq 0 8) (repeat 0%Z 8))
      = repeat 0%Z (length (combine (seq 0 8) (repeat 0%Z 8))))
  /\ improve_classification_history [8; 8] (combine (seq 0 8) (repeat 0%Z 8)) 4 (60 # 100)
     = Returns (repeat 0%Z 8).
Proof.
  assert (H1 : 0 < 4) by lia.
  assert (H2 : Forall (fun ts => ts <= length (combine (seq 0 8) (repeat 0%Z 8))) [8; 8])
    by (repeat constructor).
  assert (H3 : values (combine (seq 0 8) (repeat 0%Z 8))
               = repeat 0%Z (length (combine (seq 0 8) (repeat 0%Z 8))))
    by reflexivity.
  split; [split; [exact H1|split; [exact H2|exact H3]]|].
  exact (improve_classification_history_unanimous [8; 8] _ 4 (60 # 100) 0%Z H1 H2 H3).
Defined.

Lemma improve_classification_history_beyond_witness :
  (0 < 4 /\ Forall (fun ts => ts <= 6) [6; 4]
   /\ improve_classification_history [6; 4] example_labels 4 (60 # 100)
      = Returns [1; 1; 1; 1; 1; 2; 2; 3; 2; 4]%Z)
  /\ skipn 6 [1; 1; 1; 1; 1; 2; 2; 3; 2; 4]%Z = skipn 6 (values example_labels).
Proof.
  assert (H1 : 0 < 4) by lia.
  assert (H2 : Forall (fun ts => ts <= 6) [6; 4]) by (repeat constructor).
  assert (H3 : improve_classification_history [6; 4] example_labels 4 (60 # 100)
               = Returns [1; 1; 1; 1; 1; 2; 2; 3; 2; 4]%Z) by (vm_compute; reflexivity).
  split; [split; [exact H1|split; [exact H2|exact H3]]|].
  exact (improve_classification_history_beyond [6; 4] example_labels 4 (60 # 100)
                                               _ 6 H1 H2 H3).
Defined.

Lemma classify_raises (window : list Z) (threshold : Q) (e : exn) :
  classify_aggregation_window window threshold = Raises e ->
  window = [] /\ e = ValueError.
Proof.
  intros H. destruct window as [|x window].
  - split; [reflexivity|]. rewrite classify_empty in H. congruence.
  - destruct (classify_nonempty (x :: window) threshold) as (c & E & _); [discriminate|].
    congruence.
Qed.

Lemma smooth_slice_raises (threshold : Q) (a b : nat) (l : list Z) (e : exn) :
  smooth_slice threshold a b l = Raises e -> e = ValueError.
Proof.
  unfold smooth_slice. intros H.
  destruct (classify_aggregation_window _ threshold) as [c|e'] eqn:E; simpl in H;
    [discriminate|].
  apply classify_raises in E. destruct E as [_ E]. congruence.
Qed.

Lemma smooth_slices_raises (threshold : Q) (slices : list (nat * nat)) :
  forall l e, smooth_slices threshold slices l = Raises e -> e = ValueError.
Proof.
  induction slices as [|[a b] slices IH]; intros l e H; simpl in H; [discriminate|].
  destruct (smooth_slice threshold a b l) as [l1|e'] eqn:E; simpl in H.
  - apply (IH l1 e H).
  - apply smooth_slice_raises in E. congruence.
Qed.

(** A chunk that starts inside the labels ends at or before the first
    multiple of the window size that is not below their number. *)
Lemma next_chunk_in_reach (window_size n j : nat) :
  j * window_size < n -> (j + 1) * window_size <= round_up window_size n.
Proof.
  intros Hj. unfold round_up.
  destruct window_size as [|w]; [lia|].
  set (q := (n + S w - 1) / S w).
  assert (Hq : n + S w - 1 < S w * S q)
    by (apply Nat.mul_succ_div_gt; lia).
  assert (j < q) by nia.
  nia.
Qed.

Lemma reach_in_labels (window_size n j : nat) :
  0 < window_size ->
  j * window_size < round_up window_size n -> j * window_size < n.
Proof.
  intros Hw Hj. unfold round_up in Hj.
  set (q := (n + window_size - 1) / window_size) in *.
  assert (Hq : window_size * q <= n + window_size - 1)
    by (apply Nat.Div0.mul_div_le).
  assert (j < q) by nia.
  nia.
Qed.

Lemma smooth_chunks_reach (window_size : nat) (threshold : Q) (ts : nat) :
  forall bound i l i' l' j,
    i = j * window_size ->
    smooth_chunks bound window_size threshold ts i l = Returns (i', l') ->
    length l' = length l
    /\ (exists j', i' = j' * window_size)
    /\ (i' = i \/ i' <= round_up window_size (length l)).
Proof.
  induction bound as [|bound IH]; intros i l i' l' j Hi H; simpl in H.
  - inversion H; subst. split; [reflexivity|]. split; [exists j; reflexivity|auto].
  - destruct (Nat.ltb_spec (i + window_size) ts) as [Hg|Hg].
    + destruct (smooth_slice threshold i (i + window_size) l) as [l1|e] eqn:E;
        simpl in H; [|discriminate].
      apply smooth_slice_returns in E.
      destruct E as (_ & Hal & Hlen & _).
      destruct (IH (i + window_size) l1 i' l' (S j)) as (Hl & Hm & Hr);
        [simpl; lia|exact H|].
      split; [lia|]. split; [exact Hm|]. right.
      pose proof (next_chunk_in_reach window_size (length l) j) as Hn.
      rewrite Hlen in Hr. destruct Hr as [Hr|Hr]; [|exact Hr]. subst. nia.
    + inversion H; subst. split; [reflexivity|]. split; [exists j; reflexivity|auto].
Qed.

Lemma smooth_segment_reach (window_size : nat) (threshold : Q) (ts : nat)
      (l l' : list Z) :
  smooth_segment window_size threshold ts l = Returns l' ->
  length l' = length l /\ ts <= round_up window_size (length l).
Proof.
  unfold smooth_segment. intros H.
  destruct (smooth_chunks ts window_size threshold ts 0 l) as [[i l1]|e] eqn:E;
    simpl in H; [|discriminate].
  pose proof (smooth_chunks_exit window_size threshold ts ts 0 l i l1
                ltac:(lia) E) as Hexit.
  destruct (smooth_chunks_reach window_size threshold ts ts 0 l i l1 0 eq_refl E)
    as (Hlen & (j' & Hj') & Hr).
  destruct (Nat.ltb_spec 0 (ts - i)) as [Hlast|Hlast].
  - apply smooth_slice_returns in H. destruct H as (_ & Hal & Hlen' & _).
    split; [lia|].
    pose proof (next_chunk_in_reach window_size (length l) j') as Hn.
    rewrite Hlen in Hal. nia.
  - inversion H; subst l'. split; [exact Hlen|].
    destruct Hr as [Hr|Hr]; lia.
Qed.

(** The call returns exactly when no entry of [traffic_samples] exceeds
    the number of labels rounded up to a multiple of the window size; in
    every other case (an entry beyond that, or any positive entry with a
    window size of 0) a chunk is empty and the call raises [ValueError],
    the error of [max] on an empty dict. *)
Theorem improve_classification_history_returns_iff (traffic_samples : list nat)
        (traffic_idx : labels) (window_size : nat) (threshold : Q) :
  ((exists smoothed,
       improve_classification_history traffic_samples traffic_idx window_size threshold
       = Returns smoothed)
   <-> Forall (fun ts => ts <= round_up window_size (length traffic_idx)) traffic_samples)
  /\ (forall e,
         improve_classification_history traffic_samples traffic_idx window_size threshold
         = Raises e -> e = ValueError).
Proof.
  unfold improve_classification_history. rewrite <- values_length.
  generalize (values traffic_idx) as l. intros l.
  split; [split|].
  - intros [z H]. revert l H.
    induction traffic_samples as [|ts rest IH]; intros l H; [constructor|].
    simpl in H.
    destruct (smooth_segment window_size threshold ts l) as [l1|e] eqn:E;
      simpl in H; [|discriminate].
    apply smooth_segment_reach in E. destruct E as [Hlen Hts].
    constructor; [exact Hts|]. rewrite <- Hlen. apply (IH l1 H).
  - intros Hts. rewrite smooth_segments_slices.
    apply smooth_slices_total.
    destruct window_size as [|w].
    + assert (Hnone : call_slices 0 traffic_samples = []).
      { unfold call_slices. induction Hts as [|ts rest Hle _ IH]; [reflexivity|].
        simpl. rewrite IH. unfold round_up in Hle. simpl in Hle.
        assert (ts = 0) by lia. subst ts. reflexivity. }
      rewrite Hnone. constructor.
    + assert (Hw : 0 < S w) by lia.
      unfold call_slices. induction Hts as [|ts rest Hle _ IH]; simpl; [constructor|].
      apply Forall_app. split; [|exact IH].
      destruct (segment_slices_shape (S w) ts Hw) as [Hchunks _].
      apply Forall_impl with (2 := Hchunks).
      intros ab (j & Ha & Hb & Hab). split; [exact Hab|].
      rewrite Ha. apply (reach_in_labels (S w) (length l) j Hw). lia.
  - intros e H. rewrite smooth_segments_slices in H.
    apply (smooth_slices_raises _ _ _ _ H).
Qed.

(** ** What [binary_scores] counts *)










(** ** [classify_live_data] and the single-model branches of [main] *)

Lemma share_nonneg (a n : Z) :
  (0 <= a)%Z -> (0 < n)%Z -> (0 <= inject_Z a / inject_Z n)%Q.
Proof.
  intros Ha Hn. apply Qle_shift_div_l.
  - change 0%Q with (inject_Z 0). rewrite <- Zlt_Qlt. exact Hn.
  - rewrite Qmult_0_l. change 0%Q with (inject_Z 0). rewrite <- Zle_Qle. exact Ha.
Qed.

Lemma share_le_one (a n : Z) :
  (a <= n)%Z -> (0 < n)%Z -> (inject_Z a / inject_Z n <= 1)%Q.
Proof.
  intros Ha Hn. apply Qle_shift_div_r.
  - change 0%Q with (inject_Z 0). rewrite <- Zlt_Qlt. exact Hn.
  - rewrite Qmult_1_l. rewrite <- Zle_Qle. exact Ha.
Qed.

Lemma share_one (a n : Z) :
  (0 < n)%Z -> ((inject_Z a / inject_Z n == 1)%Q <-> a = n).
Proof.
  intros Hn. destruct n as [|p|p]; [lia| |lia].
  unfold Qeq, Qdiv, Qinv, Qmult, inject_Z. simpl. lia.
Qed.

Section LiveDataProperties.

Variable feature : Type.
Variable model_predict : list (list feature) -> list Z.

(** With at least one prediction both shares are fractions between 0 and
    1; the share of non-mining windows is 1 exactly when every label is
    below 7, and the share of mining windows is 1 exactly when none is.
    Without any prediction the division by [len(result)] raises
    [ZeroDivisionError]. *)
Theorem classify_live_data_shares (norm_pca_features : list (list feature)) :
  (model_predict norm_pca_features <> [] ->
   exists nmin min,
     classify_live_data feature model_predict norm_pca_features = Returns (nmin, min)
     /\ (0 <= nmin)%Q /\ (nmin <= 1)%Q /\ (0 <= min)%Q /\ (min <= 1)%Q
     /\ ((nmin == 1)%Q <-> Forall (fun r => (r < 7)%Z) (model_predict norm_pca_features))
     /\ ((min == 1)%Q <-> Forall (fun r => (7 <= r)%Z) (model_predict norm_pca_features)))
  /\ (model_predict norm_pca_features = [] ->
      classify_live_data feature model_predict norm_pca_features
      = Raises ZeroDivisionError).
Proof.
  unfold classify_live_data, true_div.
  set (result := model_predict norm_pca_features).
  set (k := length (filter (fun r => (r <? 7)%Z) result)).
  split.
  - intros Hne.
    assert (Hk : k <= length result) by apply filter_length_le.
    assert (Hn : 0 < length result) by (destruct result; [congruence|simpl; lia]).
    destruct (Z.eqb_spec (Z.of_nat (length result)) 0) as [?|_]; [lia|].
    simpl bind. eexists. eexists. split; [reflexivity|].
    assert (Hall : k = length result <-> Forall (fun r => (r < 7)%Z) result).
    { unfold k. clear. induction result as [|x l IH]; simpl.
      - split; [constructor|reflexivity].
      - pose proof (filter_length_le (fun r => (r <? 7)%Z) l) as Hle.
        destruct (Z.ltb_spec x 7) as [Hx|Hx]; simpl.
        + split.
          * intros H. constructor; [exact Hx|]. apply IH. lia.
          * intros H. inversion H; subst. f_equal. apply IH. assumption.
        + split; [lia|]. intros H. inversion H; subst. lia. }
    assert (Hnone : k = 0 <-> Forall (fun r => (7 <= r)%Z) result).
    { unfold k. clear. induction result as [|x l IH]; simpl.
      - split; [constructor|reflexivity].
      - destruct (Z.ltb_spec x 7) as [Hx|Hx]; simpl.
        + split; [lia|]. intros H. inversion H; subst. lia.
        + split.
          * intros H. constructor; [exact Hx|]. apply IH. exact H.
          * intros H. inversion H; subst. apply IH. assumption. }
    split; [apply share_nonneg; lia|].
    split; [apply share_le_one; lia|].
    split; [apply share_nonneg; lia|].
    split; [apply share_le_one; lia|].
    rewrite !share_one by lia. rewrite <- Hall, <- Hnone. lia.
  - intros Hnil. rewrite Hnil. reflexivity.
Qed.

(** The branches [args.method == 1] and [args.method == 2]: when the model
    answers with one label per feature row and the segment bounds do not
    exceed the number of rows, the result has one label per row, and every
    label in it is one the model predicted for some row. *)
Theorem single_model_labels (traffic_samples_number : list nat)
        (norm_pca_test_features : list (list feature)) :
  length (model_predict norm_pca_test_features) = length norm_pca_test_features ->
  Forall (fun ts => ts <= length norm_pca_test_features) traffic_samples_number ->
  exists y_test,
    single_model feature model_predict traffic_samples_number norm_pca_test_features
    = Returns y_test
    /\ length y_test = length norm_pca_test_features
    /\ forall x, In x y_test -> In x (model_predict norm_pca_test_features).
Proof.
  intros Hlen Hts. unfold single_model.
  rewrite as_dict_returns by exact Hlen. simpl bind.
  set (d := combine (seq 0 (length norm_pca_test_features))
                    (model_predict norm_pca_test_features)).
  assert (Hd : length d = length norm_pca_test_features).
  { unfold d. rewrite length_combine, length_seq, Hlen. apply Nat.min_id. }
  assert (Hv : values d = model_predict norm_pca_test_features).
  { unfold d. rewrite <- Hlen. apply values_combine. }
  destruct (improve_classification_history_returns_value traffic_samples_number d 40
              (60 # 100)) as (y & E & Hy); [lia|rewrite Hd; exact Hts|].
  exists y. split; [exact E|]. split; [lia|].
  apply improve_classification_history_returns in E. destruct E as [_ Hin].
  rewrite Hv in Hin. exact Hin.
Qed.

End LiveDataProperties.

Lemma single_model_labels_witness :
  (length (example_bulk example_features) = length example_features
   /\ Forall (fun ts => ts <= length example_features) [2])
  /\ exists y_test,
      single_model Z example_bulk [2] example_features = Returns y_test
      /\ length y_test = 2.
Proof.
  assert (H1 : length (example_bulk example_features) = length example_features)
    by reflexivity.
  assert (H2 : Forall (fun ts => ts <= length example_features) [2])
    by (repeat constructor).
  split; [split; assumption|].
  destruct (single_model_labels Z example_bulk [2] example_features H1 H2)
    as (y & E & Hlen & _).
  exists y. split; [exact E|exact Hlen].
Defined.
